(** * RouteStory backend: the Route Intelligence Engine

    A shallow embedding of the algorithmic core of
    [supabase/functions/generate-route/index.ts],
    [supabase/functions/route-status/index.ts] and of the stored SQL
    routines, and the properties the specification states about them.

    Conventions.
    - A JavaScript [number] is an IEEE 754 binary64 value: Rocq's
      primitive [float].  Where the source only handles integers
      (char codes, the 32-bit results of the bit operators, the
      accumulated latitude and longitude in units of 1e-5 degree) the
      integer is a [Z], with the 32-bit wrap-around of the bit operators
      written out.
    - A JavaScript string is the list of its UTF-16 code units.
    - A SQL [DECIMAL] is an exact rational, [Q]. *)

From Stdlib Require Import ZArith List String Ascii Bool Lia QArith Floats.
From Stdlib Require Import Permutation Sorted Lqa.
Import ListNotations.

Set Warnings "-inexact-float".
Local Open Scope Z_scope.

(** ** JavaScript's 32-bit integer operators *)

Module Int32.

(** [ToInt32]: reduction modulo 2^32 into [-2^31, 2^31). *)
Definition wrap (x : Z) : Z := (x + 2 ^ 31) mod 2 ^ 32 - 2 ^ 31.

(** [x << s]: the shift count is taken modulo 32. *)
Definition shl (x s : Z) : Z := wrap (Z.shiftl (wrap x) (s mod 32)).

(** [x >> s], sign-propagating. *)
Definition sar (x s : Z) : Z := Z.shiftr (wrap x) (s mod 32).

(** [x | y], [x & y] and [~x]. *)
Definition or (x y : Z) : Z := wrap (Z.lor (wrap x) (wrap y)).
Definition and (x y : Z) : Z := wrap (Z.land (wrap x) (wrap y)).
Definition not (x : Z) : Z := wrap (Z.lnot (wrap x)).

End Int32.

(** ** Numbers *)

(** The binary64 value of an integer (exact below 2^53). *)
Definition Z2float (z : Z) : float :=
  SF2Prim (binary_normalize prec emax z 0 false).

(** ** Path Codec: [decodePolyline] *)

Module PathCodec.

(** A string as its UTF-16 code units. *)
Definition jsstring := list Z.

Definition code_of_ascii (a : ascii) : Z := Z.of_N (N_of_ascii a).

Fixpoint codes (s : string) : jsstring :=
  match s with
  | EmptyString => []
  | String a s' => code_of_ascii a :: codes s'
  end.

(** [encoded.charCodeAt(i)]; [None] is the [NaN] of an index past the end. *)
Definition charCodeAt (encoded : jsstring) (index : nat) : option Z :=
  nth_error encoded index.

(** [b = encoded.charCodeAt(index) - 63]; [NaN - 63] is [NaN]. *)
Definition minus63 (c : option Z) : option Z :=
  option_map (fun c => c - 63) c.

(** [b & 0x1f]; [ToInt32(NaN)] is 0. *)
Definition and_0x1f (b : option Z) : Z :=
  match b with
  | Some b => Int32.and b 31
  | None => 0
  end.

(** [b >= 0x20]; a comparison with [NaN] is false. *)
Definition ge_0x20 (b : option Z) : bool :=
  match b with
  | Some b => 32 <=? b
  | None => false
  end.

(** One [do { ... } while (b >= 0x20)] loop.  It returns the index and
    [result] at the exit of the loop; [None] only when [fuel] runs out. *)
Fixpoint readDelta (fuel : nat) (encoded : jsstring) (index : nat)
    (shift result : Z) : option (nat * Z) :=
  match fuel with
  | O => None
  | S fuel' =>
      let b := minus63 (charCodeAt encoded index) in
      let index := S index in
      let result := Int32.or result (Int32.shl (and_0x1f b) shift) in
      let shift := shift + 5 in
      if ge_0x20 b then readDelta fuel' encoded index shift result
      else Some (index, result)
  end.

(** [(result & 1) !== 0 ? ~(result >> 1) : (result >> 1)]. *)
Definition delta (result : Z) : Z :=
  if negb (Int32.and result 1 =? 0) then Int32.not (Int32.sar result 1)
  else Int32.sar result 1.

(** A decoded coordinate, [[lat / 1e5, lng / 1e5]]. *)
Definition coordinate : Type := float * float.

Definition degrees (lat lng : Z) : coordinate :=
  ((Z2float lat / 1e5)%float, (Z2float lng / 1e5)%float).

(** The body of the [while] loop: two deltas are read and added to the
    accumulators.  [lat] and [lng] are integers (a binary64 holds them
    exactly below 2^53).  A [do-while] loop reads one character per
    step; it is given one step more than the string has characters. *)
Definition iteration (encoded : jsstring) (index : nat) (lat lng : Z)
    : option (nat * Z * Z) :=
  let steps := S (List.length encoded) in
  match readDelta steps encoded index 0 0 with
  | None => None
  | Some (index, result) =>
      let lat := lat + delta result in
      match readDelta steps encoded index 0 0 with
      | None => None
      | Some (index, result) =>
          let lng := lng + delta result in
          Some (index, lat, lng)
      end
  end.

(** The [while (index < encoded.length)] loop. *)
Fixpoint decodeLoop (fuel : nat) (encoded : jsstring) (index : nat)
    (lat lng : Z) (coordinates : list coordinate) : option (list coordinate) :=
  match fuel with
  | O => None
  | S fuel' =>
      if (index <? List.length encoded)%nat then
        match iteration encoded index lat lng with
        | None => None
        | Some (index, lat, lng) =>
            decodeLoop fuel' encoded index lat lng
              (coordinates ++ [degrees lat lng])
        end
      else Some coordinates
  end.

(** [decodePolyline(encoded)].  The outer loop is given one iteration
    more than the string has characters; it never needs more. *)
Definition decodePolyline (encoded : jsstring) : option (list coordinate) :=
  decodeLoop (S (List.length encoded)) encoded 0 0 0 [].

(** The input's stream of 5-bit groups stops in the middle of a delta:
    its last character still carries the continuation bit 0x20. *)
Definition endsMidDelta (encoded : jsstring) : bool :=
  match List.last (map Some encoded) None with
  | Some c => 32 <=? c - 63
  | None => false
  end.

(** *** The encoder

    The source has the decoder only.  The specification's Path Codec
    also "performs the inverse encoding" of "a compact signed-delta,
    base-64-like encoded string"; the definitions below are that
    encoder, the writer of the format [decodePolyline] reads.  A Path on
    the 1e-5 grid is given by its integer grid indices. *)









End PathCodec.

(** ** POI Scorer *)

Module Scorer.

Local Open Scope string_scope.
Local Open Scope float_scope.

(** [Math.min] of two numbers. *)
Definition Math_min (x y : float) : float :=
  if is_nan x || is_nan y then nan
  else if x <? y then x
  else if y <? x then y
  else if get_sign x then x else y.

(** [Math.round]: the integer nearest to [x], a tie going up:
    [floor(x + 1/2)], computed exactly; [NaN], the infinities and the
    zeros are returned as they are, and a result of zero keeps the sign
    of [x]. *)
Definition Math_round (x : float) : float :=
  match Prim2SF x with
  | S754_finite s m e =>
      let sm := if s then Z.neg m else Z.pos m in
      let n := (if 0 <=? e then sm * 2 ^ e
                else (2 * sm + 2 ^ (- e)) / 2 ^ (1 - e))%Z in
      if (n =? 0)%Z && s then neg_zero else Z2float n
  | _ => x
  end.

Section ApplicationScorer.

(** [Math.log]: the natural logarithm as the JavaScript engine
    approximates it. *)
Variable Math_log : float -> float.

(** Rating component (25% weight). *)
Definition ratingScore (googleRating : float) : float :=
  if 0 <? googleRating then (googleRating / 5.0) * 0.25 else 0.

(** Review count component (20% weight), logarithmic scale. *)
Definition popularityScore (reviewCount : float) : float :=
  if 0 <? reviewCount
  then Math_min (Math_log reviewCount / Math_log 1000) 1.0 * 0.20
  else 0.

(** POI type component (20% weight): the [switch]. *)
Definition typeScore (poiType : string) : float :=
  if String.eqb poiType "tourist_attraction" then 0.20
  else if String.eqb poiType "museum" then 0.18
  else if String.eqb poiType "historical_site" then 0.16
  else if String.eqb poiType "landmark" then 0.15
  else if String.eqb poiType "park" then 0.12
  else if String.eqb poiType "restaurant" then 0.10
  else 0.08.

(** Distance penalty (10% weight). *)
Definition distanceScore (distanceFromRoute : float) : float :=
  if distanceFromRoute <=? 500 then 0.10
  else if distanceFromRoute <=? 1000 then 0.08
  else if distanceFromRoute <=? 2000 then 0.05
  else 0.02.

Definition uniquenessScore : float := 0.15 * 0.5.
Definition historicalScore : float := 0.10 * 0.5.

(** [calculatePOIScore(googleRating, reviewCount, poiType, distanceFromRoute)]. *)
Definition calculatePOIScore (googleRating reviewCount : float)
    (poiType : string) (distanceFromRoute : float) : float :=
  let finalScore :=
    ratingScore googleRating + popularityScore reviewCount
    + typeScore poiType + distanceScore distanceFromRoute
    + uniquenessScore + historicalScore in
  Math_round (finalScore * 100).

End ApplicationScorer.

(** The exact rational value of a finite binary64 number. *)
Definition float_to_Q (x : float) : option Q :=
  match Prim2SF x with
  | S754_zero _ => Some 0%Q
  | S754_finite s m e =>
      let sm := if s then Z.neg m else Z.pos m in
      Some (Qred (if (0 <=? e)%Z then inject_Z (sm * 2 ^ e)
                  else Qmake sm (Z.to_pos (2 ^ (- e)))))
  | _ => None
  end.

(** The binary64 number nearest to a decimal: what parsing the decimal
    gives (numerator and denominator below 2^53). *)
Definition Q2float (q : Q) : float := Z2float (Qnum q) / Z2float (Z.pos (Qden q)).

(** *** The stored routine [calculate_poi_score]

    [DECIMAL] values are exact rationals.  [ln] of an [INTEGER] is
    computed in [DOUBLE PRECISION]; the product with the weight is
    converted to [DECIMAL] by the assignment to [popularity_score]. *)

Section DatabaseScorer.

Local Open Scope Q_scope.

(** PostgreSQL's [ln(double precision)] and the cast of a
    [double precision] to [numeric]. *)
Variable pg_ln : float -> float.
Variable float8_to_numeric : float -> Q.

(** [LEAST] of two [double precision] values. *)
Definition LEAST (x y : float) : float := if (x <? y)%float then x else y.

(** [ROUND(x, 2)] on [numeric]: two decimals, a tie going away from zero. *)
Definition ROUND2 (x : Q) : Q :=
  let c := Qred (x * 100) in
  let n := ((2 * Z.abs (Qnum c) + Z.pos (Qden c)) / (2 * Z.pos (Qden c)))%Z in
  Qred (Qmake (Z.sgn (Qnum c) * n) 100).

Definition rating_score (google_rating : option Q) : Q :=
  match google_rating with
  | Some r => (r / 5) * 0.25
  | None => 0
  end.

Definition popularity_score (review_count : Z) : Q :=
  if (0 <? review_count)%Z
  then float8_to_numeric
         (LEAST (pg_ln (Z2float review_count) / pg_ln 1000)%float 1.0 * 0.20)%float
  else 0.

Definition type_score (poi_type : string) : Q :=
  if String.eqb poi_type "tourist_attraction" then 0.20
  else if String.eqb poi_type "museum" then 0.18
  else if String.eqb poi_type "historical_site" then 0.16
  else if String.eqb poi_type "landmark" then 0.15
  else if String.eqb poi_type "park" then 0.12
  else if String.eqb poi_type "restaurant" then 0.10
  else 0.08.

Definition distance_score (distance_from_route : float) : Q :=
  if (distance_from_route <=? 500)%float then 0.10
  else if (distance_from_route <=? 1000)%float then 0.08
  else if (distance_from_route <=? 2000)%float then 0.05
  else 0.02.

(** [calculate_poi_score(google_rating, review_count, poi_type,
    distance_from_route, uniqueness_score)]; [google_rating] may be
    [NULL], the other arguments are taken not to be. *)
Definition calculate_poi_score (google_rating : option Q) (review_count : Z)
    (poi_type : string) (distance_from_route : float) (uniqueness_score : Z)
    : Q :=
  let final_score :=
    rating_score google_rating + popularity_score review_count
    + type_score poi_type + distance_score distance_from_route
    + (inject_Z uniqueness_score / 10 * 0.15) + 0.10 in
  ROUND2 (final_score * 100).

(** The default of the argument [uniqueness_score]. *)
Definition default_uniqueness_score : Z := 5.

End DatabaseScorer.

(** *** The inputs of the specification's test grid *)

Definition grid_ratings : list float := [0; 2.5; 5].
Definition grid_counts : list float := [0; 10; 1000; 1000000].

(** The correctly rounded natural logarithms of 10, 1000 and 1000000. *)
Definition ln_10 : float := 0x1.26bb1bbb55516p+1.
Definition ln_1000 : float := 0x1.ba18a998fffa0p+2.
Definition ln_1000000 : float := 0x1.ba18a998fffa0p+3.

(** [x] is [y] or one of the two binary64 numbers next to it. *)
Definition nearly (x y : float) : Prop :=
  x = next_down y \/ x = y \/ x = next_up y.

(** A logarithm that is defined at these three arguments only. *)
Definition log_table (x : float) : float :=
  if x =? 10 then ln_10
  else if x =? 1000 then ln_1000
  else if x =? 1000000 then ln_1000000
  else nan.

(** A cast to [numeric] that keeps the exact value of a finite number. *)
Definition cast_exact (x : float) : Q :=
  match float_to_Q x with
  | Some q => q
  | None => 0%Q
  end.

(** The database score lies 4.5 to 5.5 points above the application score. *)
Definition gap_5 (app : float) (db : Q) : bool :=
  match float_to_Q app with
  | Some a => Qle_bool (a + 4.5) db && Qle_bool db (a + 5.5)
  | None => false
  end.

(** The ratings 0.0, 0.1, ..., 5.0, as tenths. *)
Definition rating_tenths : list Z := map Z.of_nat (seq 0 51).

End Scorer.

(** ** POI Aggregator: [discoverPOIsNearRoute] *)

Module Aggregator.
Import Scorer.

Local Open Scope string_scope.

(** A result of the nearby-place search. *)
Record Place := {
  place_id : string;
  place_name : string;
  geometry_location : option (float * float);
  types : list string;
  rating : option float;
  user_ratings_total : option float
}.

(** The object the aggregator builds for a place. *)
Record POI := {
  google_place_id : string;
  name : string;
  location : float * float;
  poi_type : string;
  google_rating : float;
  review_count : float;
  popularity_score : float;
  route_coordinate_index : nat
}.

(** [x || 0] on an optional number: absent, [NaN] and zero give 0. *)
Definition or_zero (x : option float) : float :=
  match x with
  | Some v => if is_nan v || (v =? 0)%float then 0%float else v
  | None => 0%float
  end.

(** [place.types?.[0] || d]. *)
Definition first_type_or (types : list string) (d : string) : string :=
  match types with
  | t :: _ => if String.eqb t "" then d else t
  | [] => d
  end.

(** What one search request comes to: a thrown error, or the parsed
    [data.results] (empty when the field is absent). *)
Inductive SearchOutcome :=
| SearchFailed
| SearchResults (results : list Place).

Definition searchRadius : Z := 5000.
Definition maxPOIsPerSearch : nat := 10.

Section Discovery.

Variable Math_log : float -> float.

(** The nearby-place search, by the index of the sample point it is
    issued for. *)
Variable nearbysearch : nat -> SearchOutcome.

(** The [poi] object built for [place], found at sample [i];
    [place_location] is its [geometry.location]. *)
Definition makePOI (i : nat) (place : Place) (place_location : float * float)
    : POI := {|
  google_place_id := place_id place;
  name := place_name place;
  location := place_location;
  poi_type := first_type_or (types place) "tourist_attraction";
  google_rating := or_zero (rating place);
  review_count := or_zero (user_ratings_total place);
  popularity_score :=
    calculatePOIScore Math_log (or_zero (rating place))
      (or_zero (user_ratings_total place))
      (first_type_or (types place) "unknown") 0;
  route_coordinate_index := i
|}.

Definition sameId (id : string) (p : POI) : bool :=
  String.eqb (google_place_id p) id.

(** The check and the [push]: a [poi] whose identifier is already among
    [discoveredPOIs] is dropped. *)
Definition addPOI (discoveredPOIs : list POI) (poi : POI) : list POI :=
  match find (sameId (google_place_id poi)) discoveredPOIs with
  | Some existing => discoveredPOIs
  | None => discoveredPOIs ++ [poi]
  end.

(** The loop over the results of one search.  A place without
    [geometry] makes the construction of its [poi] throw: the [catch]
    of the sample ends the loop, and what was pushed before stays. *)
Fixpoint processResults (i : nat) (results : list Place)
    (discoveredPOIs : list POI) : list POI :=
  match results with
  | [] => discoveredPOIs
  | place :: results' =>
      match geometry_location place with
      | Some place_location =>
          processResults i results'
            (addPOI discoveredPOIs (makePOI i place place_location))
      | None => discoveredPOIs
      end
  end.

(** The body of the loop over the sample points, for sample [i]. *)
Definition sampleStep (discoveredPOIs : list POI) (i : nat) : list POI :=
  match nearbysearch i with
  | SearchResults results =>
      processResults i (firstn maxPOIsPerSearch results) discoveredPOIs
  | SearchFailed => discoveredPOIs
  end.

(** The indices [i = 0; i < n; i += searchInterval] of the loop. *)
Fixpoint sampleIndices (fuel n searchInterval i : nat) : list nat :=
  match fuel with
  | O => []
  | S fuel' =>
      if (i <? n)%nat
      then i :: sampleIndices fuel' n searchInterval (i + searchInterval)
      else []
  end.

Definition searchInterval (coordinates : list (float * float)) : nat :=
  Nat.max 1 (List.length coordinates / 5).

Definition samples (coordinates : list (float * float)) : list nat :=
  sampleIndices (List.length coordinates) (List.length coordinates)
    (searchInterval coordinates) 0.

(** [discoveredPOIs] when the loop over the sample points is left. *)
Definition discoveredPOIs (coordinates : list (float * float)) : list POI :=
  fold_left sampleStep (samples coordinates) [].

(** [sort((a, b) => b.popularity_score - a.popularity_score)]: the sort
    is stable; [x] goes behind [y] when the comparator is positive. *)
Definition goesBehind (x y : POI) : bool :=
  (0 <? popularity_score y - popularity_score x)%float.

Fixpoint insertPOI (x : POI) (sorted : list POI) : list POI :=
  match sorted with
  | [] => [x]
  | y :: sorted' =>
      if goesBehind x y then y :: insertPOI x sorted' else x :: y :: sorted'
  end.

Definition sortByScore (pois : list POI) : list POI :=
  fold_right insertPOI [] pois.

Definition maxPOIsPerRoute : nat := 8.

(** [discoverPOIsNearRoute(routePath, coordinates)]. *)
Definition discoverPOIsNearRoute (apiKey : option string)
    (coordinates : list (float * float)) : list POI :=
  match apiKey with
  | None => []
  | Some _ =>
      firstn maxPOIsPerRoute (sortByScore (discoveredPOIs coordinates))
  end.

(** The candidates in the order of their discovery: for every sample
    point, the [poi] objects built from the first [maxPOIsPerSearch]
    results of its search. *)
Fixpoint builtPOIs (i : nat) (results : list Place) : list POI :=
  match results with
  | [] => []
  | place :: results' =>
      match geometry_location place with
      | Some place_location =>
          makePOI i place place_location :: builtPOIs i results'
      | None => []
      end
  end.

Definition candidatesAt (i : nat) : list POI :=
  match nearbysearch i with
  | SearchResults results => builtPOIs i (firstn maxPOIsPerSearch results)
  | SearchFailed => []
  end.

Definition candidates (coordinates : list (float * float)) : list POI :=
  flat_map candidatesAt (samples coordinates).

End Discovery.

(** *** An example: nine places at the first sample point, the first of
    them found again at the second *)

Definition examplePlace (id : string) (r : option float) : Place := {|
  place_id := id; place_name := id;
  geometry_location := Some (0, 0)%float;
  types := ["tourist_attraction"]; rating := r; user_ratings_total := None
|}.

Definition exampleSearch (i : nat) : SearchOutcome :=
  match i with
  | O => SearchResults
           (examplePlace "p0" None
            :: map (fun id => examplePlace id (Some 5%float))
                 ["p1"; "p2"; "p3"; "p4"; "p5"; "p6"; "p7"; "p8"])
  | _ => SearchResults [examplePlace "p0" None]
  end.


End Aggregator.

(** ** Route Variant Selector: [calculateScenicRoute] *)

Module Selector.
Import PathCodec.

Local Open Scope string_scope.

(** The request's [preferences]. *)
Record Preferences := {
  max_time_increase_percent : option Q;
  interests : list string
}.

Section Directions.

(** A step of a leg and a turn instruction; the conversion
    [convertGoogleInstructionsToMapKit] only reshapes the steps. *)
Variables Step Instruction : Type.
Variable convertGoogleInstructionsToMapKit : list Step -> list Instruction.

(** The directions service's answer; durations are whole seconds and
    distances whole meters. *)
Record Leg := {
  duration_value : Z;
  distance_value : Z;
  steps : list Step
}.

Record GoogleRoute := {
  legs : list Leg;
  overview_polyline_points : jsstring
}.

Record DirectionsData := {
  directions_status : string;
  routes : list GoogleRoute
}.

(** A [fetch] of the directions and the parse of its body: an exception,
    or the data. *)
Inductive DirectionsOutcome :=
| DirectionsThrows
| DirectionsAnswer (baselineData : DirectionsData).

(** The object returned with [success: true]. *)
Record ScenicRoute := {
  coordinates : list coordinate;
  total_distance_meters : Z;
  estimated_time_seconds : Z;
  baseline_time_seconds : Z;
  time_increase_percent : Z;
  instructions : list Instruction;
  waypoints : list (float * float * string);
  route_path : jsstring
}.

Inductive RouteData :=
| RouteFailure (error : string)
| RouteSuccess (route : ScenicRoute).

(** [calculateScenicRoute(startCoords, endCoords, preferences)].  The
    key is the environment's [GOOGLE_MAPS_API_KEY]; [directions] is the
    request for the baseline route.  An exception inside the [try]
    ([fetch], a route without legs, the decoder out of fuel) is caught. *)
Definition calculateScenicRoute (apiKey : option string)
    (directions : float * float -> float * float -> DirectionsOutcome)
    (startCoords endCoords : float * float) (preferences : Preferences)
    : RouteData :=
  match apiKey with
  | None => RouteFailure "Google Maps API key not configured"
  | Some _ =>
      match directions startCoords endCoords with
      | DirectionsThrows => RouteFailure "Route calculation failed"
      | DirectionsAnswer baselineData =>
          if negb (String.eqb (directions_status baselineData) "OK")
             || (List.length (routes baselineData) =? 0)%nat
          then RouteFailure "No baseline route found"
          else
            match routes baselineData with
            | [] => RouteFailure "No baseline route found"
            | baselineRoute :: _ =>
                match legs baselineRoute with
                | [] => RouteFailure "Route calculation failed"
                | leg :: _ =>
                    let baselineTime := duration_value leg in
                    let baselineDistance := distance_value leg in
                    match decodePolyline
                            (overview_polyline_points baselineRoute) with
                    | None => RouteFailure "Route calculation failed"
                    | Some coordinates =>
                        RouteSuccess {|
                          coordinates := coordinates;
                          total_distance_meters := baselineDistance;
                          estimated_time_seconds := baselineTime;
                          baseline_time_seconds := baselineTime;
                          time_increase_percent := 0;
                          instructions :=
                            convertGoogleInstructionsToMapKit (steps leg);
                          waypoints := [];
                          route_path := overview_polyline_points baselineRoute
                        |}
                    end
                end
            end
      end
  end.


End Directions.

(** *** An example: a baseline of 1000 seconds *)

Definition exampleDirections (origin destination : float * float)
    : DirectionsOutcome unit :=
  DirectionsAnswer unit {|
    directions_status := "OK";
    routes := [ {| legs := [ {| duration_value := 1000;
                                distance_value := 15000;
                                steps := [] |} ];
                   overview_polyline_points := codes "_p~iF~ps|U_ulLnnqC" |} ]
  |}.

Definition examplePreferences : Preferences :=
  {| max_time_increase_percent := Some 20%Q; interests := [] |}.

End Selector.

(** ** Progress Tracker: the handler of [generate-route] *)

Module Progress.
Import PathCodec Scorer Aggregator Selector.

Local Open Scope string_scope.

Inductive Status := processing | completed | failed.

(** The columns [status] and [generation_progress] of a row of [routes]. *)
Record GenerationState := {
  status : Status;
  generation_progress : Z
}.

(** The object passed to [update]: a column that is not named keeps its
    value. *)
Record Update := {
  new_status : option Status;
  new_progress : option Z
}.

Definition applyUpdate (u : Update) (s : GenerationState) : GenerationState := {|
  status := match new_status u with Some st => st | None => status s end;
  generation_progress :=
    match new_progress u with Some p => p | None => generation_progress s end
|}.

(** The history of the request's row, the latest state first; it is
    empty as long as the row has not been inserted. *)
Definition History := list GenerationState.

(** [insert({..., status: 'processing', generation_progress: 10})]. *)
Definition insertRoute (insertError : bool) : History :=
  if insertError then []
  else [ {| status := processing; generation_progress := 10 |} ].

(** [update(u).eq('id', routeId)].  The handler does not look at the
    outcome of an update of the progress: [applied] tells whether the
    write reached the row. *)
Definition updateRoute (applied : bool) (u : Update) (history : History)
    : History :=
  match history with
  | s :: _ => if applied then applyUpdate u s :: history else history
  | [] => history
  end.

(** A location of the request, and [getCoordinates]. *)
Record Location := {
  address : option string;
  location_coordinates : option (float * float)
}.

Definition validCoordinates (c : float * float) : bool :=
  let '(lat, lng) := c in
  ((-90 <=? lat) && (lat <=? 90) && (-180 <=? lng) && (lng <=? 180))%float.

Definition getCoordinates (geocode : string -> option (float * float))
    (location : Location) : option (float * float) :=
  match location_coordinates location with
  | Some c =>
      if validCoordinates c then Some c
      else match address location with
           | Some a => geocode a
           | None => None
           end
  | None =>
      match address location with
      | Some a => geocode a
      | None => None
      end
  end.

Record RouteRequest := {
  start_location : option Location;
  end_location : option Location;
  preferences : option Preferences
}.

Section Handler.

Variable Math_log : float -> float.
Variables Step Instruction : Type.
Variable convertGoogleInstructionsToMapKit : list Step -> list Instruction.

(** What the handler finds outside: the environment's keys, the
    services, and the fate of its writes to the row. *)
Record World := {
  mapsApiKey : option string;
  placesApiKey : option string;
  geocode : string -> option (float * float);
  directions : float * float -> float * float -> DirectionsOutcome Step;
  nearbysearch : nat -> SearchOutcome;
  storyStored : POI -> bool;
  insertError : bool;
  updateApplied : nat -> bool
}.

Inductive Response :=
| ErrorResponse (httpStatus : Z) (code : string)
| RouteResponse (route : ScenicRoute Instruction) (stories : list POI).

Definition defaultPreferences : Preferences :=
  {| max_time_increase_percent := None; interests := [] |}.

(** The handler, after the body of the request has been parsed: the
    response and the history of the row. *)
Definition generateRoute (w : World) (method : string)
    (requestData : RouteRequest) : Response * History :=
  if negb (String.eqb method "POST")
  then (ErrorResponse 405 "Method Not Allowed", [])
  else
    match start_location requestData, end_location requestData with
    | Some start_loc, Some end_loc =>
        match getCoordinates (geocode w) start_loc,
              getCoordinates (geocode w) end_loc with
        | Some startCoords, Some endCoords =>
            let history := insertRoute (insertError w) in
            if insertError w
            then (ErrorResponse 500 "DATABASE_ERROR", history)
            else
              let prefs :=
                match preferences requestData with
                | Some p => p
                | None => defaultPreferences
                end in
              match calculateScenicRoute Step Instruction
                      convertGoogleInstructionsToMapKit (mapsApiKey w)
                      (directions w) startCoords endCoords prefs with
              | RouteFailure _ _ =>
                  let history :=
                    updateRoute (updateApplied w 0)
                      {| new_status := Some failed; new_progress := Some 0 |}
                      history in
                  (ErrorResponse 500 "ROUTE_GENERATION_FAILED", history)
              | RouteSuccess _ routeData =>
                  let history :=
                    updateRoute (updateApplied w 0)
                      {| new_status := None; new_progress := Some 40 |}
                      history in
                  let poisData :=
                    discoverPOIsNearRoute Math_log (nearbysearch w)
                      (match placesApiKey w with
                       | Some k => Some k
                       | None => mapsApiKey w
                       end)
                      (coordinates Instruction routeData) in
                  let history :=
                    updateRoute (updateApplied w 1)
                      {| new_status := None; new_progress := Some 70 |}
                      history in
                  let stories := filter (storyStored w) poisData in
                  let history :=
                    updateRoute (updateApplied w 2)
                      {| new_status := Some completed;
                         new_progress := Some 100 |}
                      history in
                  (RouteResponse routeData stories, history)
              end
        | _, _ => (ErrorResponse 400 "GEOCODING_FAILED", [])
        end
    | _, _ => (ErrorResponse 400 "MISSING_REQUIRED_FIELDS", [])
    end.

End Handler.

(** The transitions of a history: the pairs (state before, state after). *)
Fixpoint transitions (history : History)
    : list (GenerationState * GenerationState) :=
  match history with
  | after :: (before :: _) as older => (before, after) :: transitions older
  | _ => []
  end.

Definition terminal (s : GenerationState) : bool :=
  match status s with
  | processing => false
  | _ => true
  end.

(** What a transition of the handler looks like: it starts in
    [processing]; it reaches [failed] only from (processing, 10), with
    the progress reset to 0; otherwise the progress does not decrease. *)
Definition lawful (t : GenerationState * GenerationState) : Prop :=
  let '(before, after) := t in
  terminal before = false
  /\ (status after <> failed ->
      generation_progress before <= generation_progress after)
  /\ (status after = failed ->
      before = {| status := processing; generation_progress := 10 |}
      /\ after = {| status := failed; generation_progress := 0 |}).

Definition inRange (s : GenerationState) : Prop :=
  0 <= generation_progress s <= 100.

(** *** An example: a request whose directions request finds no route *)

Definition noRouteWorld : World unit := {|
  mapsApiKey := Some "key";
  placesApiKey := None;
  geocode := fun _ => None;
  directions := fun _ _ =>
    DirectionsAnswer unit
      {| directions_status := "ZERO_RESULTS"; routes := [] |};
  nearbysearch := fun _ => SearchFailed;
  storyStored := fun _ => true;
  insertError := false;
  updateApplied := fun _ => true
|}.

Definition exampleRequest : RouteRequest := {|
  start_location :=
    Some {| address := None;
            location_coordinates := Some (37.4419, -122.1430)%float |};
  end_location :=
    Some {| address := None;
            location_coordinates := Some (37.3688, -122.0363)%float |};
  preferences := Some examplePreferences
|}.

End Progress.

(** ** On-route test: [validateLocationOnRoute] and [is_location_on_route] *)

Module Validation.

Local Open Scope string_scope.

(** [current_location]; a field that is not a number is [None]. *)
Record CurrentLocation := {
  latitude : option float;
  longitude : option float
}.

Record LocationValidationRequest := {
  route_id : option string;
  current_location : option CurrentLocation
}.

Record LocationValidationResponse := {
  on_route : bool;
  distance_from_route_meters : float;
  nearest_point : float * float   (* latitude, longitude *)
}.

Inductive Response :=
| ErrorResponse (httpStatus : Z) (code : string)
| ValidationResponse (body : LocationValidationResponse).

(** The row [calculate_distance_to_route] returns; a field may be absent. *)
Record DistanceResult := {
  distance : option float;
  nearest_lat : option float;
  nearest_lng : option float
}.

(** [x || d] on an optional number: absent, [NaN] and zero give [d]. *)
Definition or_else (x : option float) (d : float) : float :=
  match x with
  | Some v => if is_nan v || (v =? 0)%float then d else v
  | None => d
  end.

Section OnRoute.

(** A stored path, and PostGIS on [geography] values: the distance in
    meters of a point (longitude, latitude) to a path.  [ST_DWithin]
    holds when this distance is at most the given one. *)
Variable LineString : Type.
Variable ST_Distance : float * float -> LineString -> float.

Definition ST_DWithin (point : float * float) (path : LineString)
    (meters : float) : bool :=
  (ST_Distance point path <=? meters)%float.

(** The stored function [is_location_on_route(check_location,
    route_path, max_distance_meters)]. *)
Definition is_location_on_route (check_location : float * float)
    (route_path : LineString) (max_distance_meters : Z) : bool :=
  ST_DWithin check_location route_path (Z2float max_distance_meters).

(** The default of [max_distance_meters]. *)
Definition default_max_distance_meters : Z := 100.

(** What the handler finds outside: the table [routes], whether the call
    of [is_location_on_route] fails, and the database function
    [calculate_distance_to_route], of which the repository has only this
    call ([None]: no row comes back). *)
Record World := {
  routes : string -> option LineString;
  validationError : bool;
  calculate_distance_to_route :
    float * float -> LineString -> option DistanceResult
}.

Definition validRange (lat lng : float) : bool :=
  negb ((lat <? -90) || (90 <? lat) || (lng <? -180) || (180 <? lng))%float.

(** [validateLocationOnRoute(supabase, requestData)]. *)
Definition validateLocationOnRoute (w : World)
    (requestData : LocationValidationRequest) : Response :=
  match route_id requestData, current_location requestData with
  | Some id, Some loc =>
      if String.eqb id ""
      then ErrorResponse 400 "MISSING_REQUIRED_FIELDS"
      else
        match latitude loc, longitude loc with
        | Some lat, Some lng =>
            if negb (validRange lat lng)
            then ErrorResponse 400 "INVALID_COORDINATES"
            else
              match routes w id with
              | None => ErrorResponse 404 "ROUTE_NOT_FOUND"
              | Some route_path =>
                  if validationError w
                  then ErrorResponse 500 "VALIDATION_ERROR"
                  else
                    let validationResult :=
                      is_location_on_route (lng, lat) route_path 200 in
                    let distanceResult :=
                      calculate_distance_to_route w (lng, lat) route_path in
                    ValidationResponse {|
                      on_route := validationResult;
                      distance_from_route_meters :=
                        or_else
                          (match distanceResult with
                           | Some r => distance r
                           | None => None
                           end) 0;
                      nearest_point :=
                        (or_else
                           (match distanceResult with
                            | Some r => nearest_lat r
                            | None => None
                            end) lat,
                         or_else
                           (match distanceResult with
                            | Some r => nearest_lng r
                            | None => None
                            end) lng)
                    |}
              end
        | _, _ => ErrorResponse 400 "INVALID_COORDINATES"
        end
  | _, _ => ErrorResponse 400 "MISSING_REQUIRED_FIELDS"
  end.

(** The operation in the words of the specification,
    [ValidateLocation(path, point, toleranceMeters)]: on route when the
    distance to the path is at most the tolerance of the caller, with
    the distance and the nearest point of the path. *)
Variable ST_ClosestPoint : float * float -> LineString -> float * float.


End OnRoute.

(** *** An example: a point 150 meters off the stored route *)

Definition examplePath : Type := unit.





End Validation.

(** ** Turn instructions: [convertGoogleInstructionsToMapKit] *)

Module Instructions.

Local Open Scope string_scope.

(** Is there a ['>'] in [s]? *)
Fixpoint hasGt (s : string) : bool :=
  match s with
  | EmptyString => false
  | String c s' => if Ascii.eqb c ">" then true else hasGt s'
  end.

(** [s.replace(/<[^>]*>/g, '')].  At a ['<'] the pattern matches when a
    ['>'] follows somewhere, up to the first one; the search goes on
    behind the match.  A ['<'] with no ['>'] behind it stays. *)
Fixpoint stripTags (s : string) : string :=
  match s with
  | EmptyString => EmptyString
  | String c s' =>
      if Ascii.eqb c "<" && hasGt s' then skipTag s'
      else String c (stripTags s')
  end
with skipTag (s : string) : string :=
  match s with
  | EmptyString => EmptyString
  | String c s' => if Ascii.eqb c ">" then stripTags s' else skipTag s'
  end.

(** Does the pattern [<[^>]*>] match somewhere in [s]? *)
Fixpoint containsTag (s : string) : bool :=
  match s with
  | EmptyString => false
  | String c s' => (Ascii.eqb c "<" && hasGt s') || containsTag s'
  end.

(** The own properties of [maneuverMap]. *)
Definition maneuverMap : list (string * string) :=
  [ ("turn-left", "turn_left");
    ("turn-right", "turn_right");
    ("turn-sharp-left", "turn_sharp_left");
    ("turn-sharp-right", "turn_sharp_right");
    ("turn-slight-left", "turn_slight_left");
    ("turn-slight-right", "turn_slight_right");
    ("straight", "continue_straight");
    ("uturn-left", "u_turn");
    ("uturn-right", "u_turn");
    ("merge", "merge");
    ("fork-left", "fork_left");
    ("fork-right", "fork_right");
    ("keep-left", "keep_left");
    ("keep-right", "keep_right");
    ("ramp-left", "ramp_left");
    ("ramp-right", "ramp_right") ].

(** The properties an object literal inherits from [Object.prototype]:
    a lookup of one of these names finds a function or an object. *)
Definition objectPrototype : list string :=
  [ "constructor"; "__defineGetter__"; "__defineSetter__"; "hasOwnProperty";
    "__lookupGetter__"; "__lookupSetter__"; "isPrototypeOf";
    "propertyIsEnumerable"; "toString"; "valueOf"; "__proto__";
    "toLocaleString" ].

(** What [maneuverMap[googleManeuver] || 'continue_straight'] evaluates
    to: a string, or an inherited property. *)
Inductive PropertyValue :=
| Text (value : string)
| Inherited (property : string).

Fixpoint lookup (key : string) (table : list (string * string))
    : option string :=
  match table with
  | [] => None
  | (k, v) :: table' => if String.eqb key k then Some v else lookup key table'
  end.

(** [mapGoogleManeuverToMapKit(googleManeuver)]. *)
Definition mapGoogleManeuverToMapKit (googleManeuver : string)
    : PropertyValue :=
  match lookup googleManeuver maneuverMap with
  | Some v => Text v
  | None =>
      if existsb (String.eqb googleManeuver) objectPrototype
      then Inherited googleManeuver
      else Text "continue_straight"
  end.

(** A step of a leg of the directions, and a turn instruction. *)
Record Step := {
  html_instructions : string;
  step_distance_value : Z;
  start_location_lat : float;
  start_location_lng : float;
  maneuver : option string
}.

Record Instruction := {
  instruction : string;
  distance_meters : Z;
  coordinate : float * float;
  maneuver_type : PropertyValue
}.

(** [step.maneuver || 'straight']: an absent or empty maneuver. *)
Definition maneuverOrStraight (m : option string) : string :=
  match m with
  | Some m => if String.eqb m "" then "straight" else m
  | None => "straight"
  end.

(** [convertGoogleInstructionsToMapKit(steps)]. *)
Definition convertGoogleInstructionsToMapKit (steps : list Step)
    : list Instruction :=
  map (fun step => {|
         instruction := stripTags (html_instructions step);
         distance_meters := step_distance_value step;
         coordinate := (start_location_lat step, start_location_lng step);
         maneuver_type :=
           mapGoogleManeuverToMapKit (maneuverOrStraight (maneuver step))
       |}) steps.


Definition exampleStep : Step := {|
  html_instructions := "Turn <b>left</b> onto <b>University Ave</b>";
  step_distance_value := 500;
  start_location_lat := 37.4419;
  start_location_lng := -122.1430;
  maneuver := Some "turn-left"
|}.

End Instructions.

(** ** Stories: [generateStoriesForPOIs] *)

Module Stories.
Import Scorer Aggregator.

Local Open Scope string_scope.

(** [Math.max] of two numbers. *)
Definition Math_max (x y : float) : float :=
  if is_nan x || is_nan y then nan
  else if (x <? y)%float then y
  else if (y <? x)%float then x
  else if get_sign x then y else x.

(** [Math.floor]: the greatest integer not above [x], computed exactly;
    [NaN], the infinities and the zeros are returned as they are. *)
Definition Math_floor (x : float) : float :=
  match Prim2SF x with
  | S754_finite s m e =>
      let sm := if s then Z.neg m else Z.pos m in
      Z2float (if (0 <=? e)%Z then sm * 2 ^ e else sm / 2 ^ (- e))
  | _ => x
  end.

(** [Math.min(10, Math.max(1, Math.floor(poi.popularity_score / 10)))]. *)
Definition storyPriority (popularity_score : float) : float :=
  Math_min 10 (Math_max 1 (Math_floor (popularity_score / 10)%float)).

(** The object pushed to [stories]. *)
Record Story := {
  story_id : string;
  title : string;
  trigger_location : float * float;   (* latitude, longitude *)
  trigger_radius_meters : Z;
  category : string;
  priority : float;
  story_coordinate_index : nat;
  estimated_trigger_time : nat
}.

Section Generation.

(** [crypto.randomUUID()] of the [i]-th iteration; the upsert into
    [pois], which gives the [id] of the record, [None] for [poiError];
    the insert into [stories] of the story data with this [poi_id],
    [false] for [storyError]. *)
Variable randomUUID : nat -> string.
Variable upsertPOI : POI -> option string.
Variable insertStory : string -> Story -> bool.

Definition storyFor (i : nat) (poi : POI) : Story := {|
  story_id := randomUUID i;
  title := "Story about " ++ name poi;
  trigger_location := location poi;
  trigger_radius_meters := 200;
  category := poi_type poi;
  priority := storyPriority (popularity_score poi);
  story_coordinate_index := route_coordinate_index poi;
  estimated_trigger_time := route_coordinate_index poi * 30
|}.

(** The loop [for (let i = 0; i < poisData.length; i++)], from index
    [i] on: a POI whose upsert or whose story insert fails is skipped. *)
Fixpoint storiesFrom (i : nat) (poisData : list POI) (stories : list Story)
    : list Story :=
  match poisData with
  | [] => stories
  | poi :: rest =>
      match upsertPOI poi with
      | None => storiesFrom (S i) rest stories
      | Some poiRecord =>
          if insertStory poiRecord (storyFor i poi)
          then storiesFrom (S i) rest (stories ++ [storyFor i poi])
          else storiesFrom (S i) rest stories
      end
  end.

(** Both writes of the iteration [i] for [poi] succeed. *)
Definition stored (i : nat) (poi : POI) : bool :=
  match upsertPOI poi with
  | Some poiRecord => insertStory poiRecord (storyFor i poi)
  | None => false
  end.

(** [generateStoriesForPOIs(routeId, poisData, supabase)]. *)
Definition generateStoriesForPOIs (poisData : list POI) : list Story :=
  storiesFrom 0 poisData [].

End Generation.

End Stories.

(** ** Route status: [getRouteStatus] *)

Module RouteStatus.
Import Scorer Progress.

Local Open Scope string_scope.

(** A row of [stories], as selected: [audio_url] may be [NULL]. *)
Record StoryRow := {
  row_id : string;
  audio_url : option string
}.

(** [story.audio_url] as a condition: neither [NULL] nor empty. *)
Definition hasAudio (story : StoryRow) : bool :=
  match audio_url story with
  | Some url => negb (String.eqb url "")
  | None => false
  end.

Record PartialResults := {
  route_calculated : bool;
  pois_discovered : bool;
  stories_generated : nat;
  audio_generated : nat
}.

Record RouteStatusResponse := {
  response_route_id : string;
  response_status : Status;
  response_progress : Z;
  estimated_completion_seconds : option float;
  error_message : option string;
  partial_results : PartialResults
}.

Inductive Response :=
| ErrorResponse (httpStatus : Z) (code : string)
| StatusResponse (body : RouteStatusResponse).

(** [Math.round((progressRemaining / 100) * 30)]. *)
Definition estimatedCompletion (generation_progress : Z) : float :=
  let progressRemaining := (100 - Z2float generation_progress)%float in
  Math_round ((progressRemaining / 100) * 30)%float.

(** [getRouteStatus(supabase, routeId)].  [route] is the row of
    [routes] ([None]: an error, or no row); [stories] the rows of
    [stories] of the route ([None]: the query failed). *)
Definition getRouteStatus (route : option GenerationState)
    (stories : option (list StoryRow)) (routeId : string) : Response :=
  match route with
  | None => ErrorResponse 404 "ROUTE_NOT_FOUND"
  | Some route =>
      let storyCount :=
        match stories with Some l => List.length l | None => 0%nat end in
      let storiesWithAudio :=
        match stories with
        | Some l => List.length (filter hasAudio l)
        | None => 0%nat
        end in
      StatusResponse {|
        response_route_id := routeId;
        response_status := status route;
        response_progress := generation_progress route;
        estimated_completion_seconds :=
          match status route with
          | processing => Some (estimatedCompletion (generation_progress route))
          | _ => None
          end;
        error_message :=
          match status route with
          | failed => Some "Route generation failed"
          | _ => None
          end;
        partial_results := {|
          route_calculated := (40 <=? generation_progress route)%Z;
          pois_discovered := (70 <=? generation_progress route)%Z;
          stories_generated := storyCount;
          audio_generated := storiesWithAudio
        |}
      |}
  end.

(** The progress values 0, 1, ..., 100 of the column's CHECK. *)
Definition progressValues : list Z := map Z.of_nat (seq 0 101).

(** The five states the handler of [generate-route] writes. *)
Definition writtenStates : list GenerationState :=
  [ {| status := processing; generation_progress := 10 |};
    {| status := processing; generation_progress := 40 |};
    {| status := processing; generation_progress := 70 |};
    {| status := completed; generation_progress := 100 |};
    {| status := failed; generation_progress := 0 |} ].

End RouteStatus.

(** ** Request validation of the API: [validateRouteRequest] *)

Module Api.
Import Progress.

Local Open Scope string_scope.

Inductive Validation :=
| Valid
| Invalid (error : string).

(** The range test of [validateRouteRequest]: none of [lat < -90],
    [lat > 90], [lng < -180], [lng > 180]. *)
Definition inRange (c : float * float) : bool :=
  let '(lat, lng) := c in
  negb ((lat <? -90) || (90 <? lat) || (lng <? -180) || (180 <? lng))%float.

(** [location.coordinates || location.address] as a condition; an
    [address] is [Some a] for a non-empty string [a]. *)
Definition hasData (location : Location) : bool :=
  match location_coordinates location, address location with
  | None, None => false
  | _, _ => true
  end.

(** [validateRouteRequest(requestData)]. *)
Definition validateRouteRequest (requestData : RouteRequest) : Validation :=
  match start_location requestData, end_location requestData with
  | Some start_loc, Some end_loc =>
      if negb (hasData start_loc) || negb (hasData end_loc)
      then Invalid "Each location must have either coordinates or address"
      else
        match location_coordinates start_loc with
        | Some c =>
            if negb (inRange c) then Invalid "Invalid start location coordinates"
            else
              match location_coordinates end_loc with
              | Some c' =>
                  if negb (inRange c')
                  then Invalid "Invalid end location coordinates"
                  else Valid
              | None => Valid
              end
        | None =>
            match location_coordinates end_loc with
            | Some c' =>
                if negb (inRange c')
                then Invalid "Invalid end location coordinates"
                else Valid
            | None => Valid
            end
        end
  | _, _ => Invalid "Missing required location data"
  end.

(** The location carries coordinates, and both are numbers other than
    [NaN] (a parsed JSON body holds no [NaN]). *)
Definition hasNumbers (location : Location) : bool :=
  match location_coordinates location with
  | Some (lat, lng) => negb (is_nan lat) && negb (is_nan lng)
  | None => false
  end.

End Api.

(** ** The routers of [route-status] and of the API *)

Module Routing.

Local Open Scope string_scope.

(** [pathname.split('/')]: the pieces between the slashes, the empty
    ones included; the empty string gives one empty piece. *)
Fixpoint split (pathname : string) : list string :=
  match pathname with
  | EmptyString => [""]
  | String c rest =>
      if Ascii.eqb c "/" then "" :: split rest
      else match split rest with
           | piece :: pieces => String c piece :: pieces
           | [] => [String c ""]
           end
  end.

(** [Boolean] on a string: the empty string is falsy. *)
Definition Boolean (s : string) : bool := negb (String.eqb s "").

(** [url.pathname.split('/').filter(Boolean)]. *)
Definition pathSegments (pathname : string) : list string :=
  filter Boolean (split pathname).

(** [s.includes(needle)]. *)
Definition includes (s needle : string) : bool :=
  match index 0 needle s with
  | Some _ => true
  | None => false
  end.

Fixpoint containsSlash (s : string) : bool :=
  match s with
  | EmptyString => false
  | String c rest => Ascii.eqb c "/" || containsSlash rest
  end.

(** The branches of the handler of [route-status]. *)
Inductive StatusEndpoint :=
| GetRouteStatus (routeId : string)
| ValidateLocationOnRoute
| InvalidEndpoint.

Definition statusRouter (method pathname : string) : StatusEndpoint :=
  let pathSegments := pathSegments pathname in
  if String.eqb method "GET" && (2 <=? List.length pathSegments)%nat
  then GetRouteStatus (last pathSegments "")
  else if String.eqb method "POST" && includes pathname "validate-location"
  then ValidateLocationOnRoute
  else InvalidEndpoint.

(** The branches of the handler of the API. *)
Inductive ApiEndpoint :=
| HandleRouteGeneration
| ForwardToStatusEndpoint (routeId : string)
| HandleHealthCheck
| EndpointNotFound.

Definition apiRouter (method pathname : string) : ApiEndpoint :=
  let pathSegments := pathSegments pathname in
  if String.eqb method "POST" && existsb (String.eqb "generate") pathSegments
  then HandleRouteGeneration
  else if String.eqb method "GET" && existsb (String.eqb "status") pathSegments
  then ForwardToStatusEndpoint (last pathSegments "")
  else if String.eqb method "GET" && existsb (String.eqb "health") pathSegments
  then HandleHealthCheck
  else EndpointNotFound.

End Routing.

(** ** An example: a route is found, and no update reaches the row *)

Module Examples.
Import Aggregator Selector Progress.

Local Open Scope string_scope.

Definition lostUpdatesWorld : World unit := {|
  mapsApiKey := Some "key";
  placesApiKey := None;
  geocode := fun _ => None;
  directions := exampleDirections;
  nearbysearch := exampleSearch;
  storyStored := fun _ => true;
  insertError := false;
  updateApplied := fun _ => false
|}.

(** *** An example: the key of the places service alone *)

Definition placesKeyWorld : World unit := {|
  mapsApiKey := None;
  placesApiKey := Some "places-key";
  geocode := fun _ => None;
  directions := exampleDirections;
  nearbysearch := exampleSearch;
  storyStored := fun _ => true;
  insertError := false;
  updateApplied := fun _ => true
|}.

(** *** An example: a location 750 meters off the route, and a database
    without [calculate_distance_to_route] *)

Definition farDistance (point : float * float)
    (path : Validation.examplePath) : float := 750.

Definition silentWorld : Validation.World Validation.examplePath := {|
  Validation.routes := fun id => Some tt;
  Validation.validationError := false;
  Validation.calculate_distance_to_route := fun point path => None
|}.

End Examples.

(** ** The values the components of the score take *)

Module ScoreTables.
Import Scorer.

Local Open Scope float_scope.

(** The values of [typeScore] and of [distanceScore], in decreasing
    order. *)
Definition typeScores : list float :=
  [0.20; 0.18; 0.16; 0.15; 0.12; 0.10; 0.08].

Definition distanceScores : list float := [0.10; 0.08; 0.05; 0.02].

(** The pairs of distance scores (farther, closer). *)
Definition distancePairs : list (float * float) :=
  [(0.10, 0.10); (0.08, 0.10); (0.05, 0.10); (0.02, 0.10);
   (0.08, 0.08); (0.05, 0.08); (0.02, 0.08);
   (0.05, 0.05); (0.02, 0.05); (0.02, 0.02)].

(** The score of [calculatePOIScore] for a place without reviews, from
    the rating and the two table values. *)
Definition scoreWithoutReviews (googleRating type_value distance_value : float)
    : float :=
  Math_round
    ((ratingScore googleRating + 0 + type_value + distance_value
      + uniquenessScore + historicalScore) * 100).

(** The rating of [n] tenths. *)
Definition tenths (n : Z) : float := Q2float (Qmake n 10).

End ScoreTables.

(** * Properties *)

(** ** Path Codec *)

Module PathCodecProofs.
Import PathCodec.

(** *** Termination of the two loops *)

(** The inner loop exits, one position or more further, as soon as the
    fuel exceeds the number of characters left. *)
Lemma readDelta_exits (fuel : nat) :
  forall (encoded : jsstring) (index : nat) (shift result : Z),
    (0 < fuel)%nat ->
    (List.length encoded < index + fuel)%nat ->
    exists index' result',
      readDelta fuel encoded index shift result = Some (index', result')
      /\ (index < index')%nat.
Proof.
  induction fuel as [|fuel IH]; intros encoded index shift result Hpos Hlen.
  - lia.
  - cbn [readDelta].
    destruct (charCodeAt encoded index) as [c|] eqn:Hc; cbn [minus63 option_map ge_0x20].
    + destruct (32 <=? c - 63).
      * assert (Hin : (index < List.length encoded)%nat).
        { apply nth_error_Some. unfold charCodeAt in Hc. congruence. }
        destruct (IH encoded (S index) (shift + 5)
                    (Int32.or result (Int32.shl (and_0x1f (Some (c - 63))) shift)))
          as (i' & r' & Hr & Hlt); try lia.
        exists i', r'. split; [exact Hr | lia].
      * eexists _, _. split; [reflexivity | lia].
    + eexists _, _. split; [reflexivity | lia].
Qed.

(** One iteration of the outer loop moves the index two positions or more. *)
Lemma iteration_advances (encoded : jsstring) (index : nat) (lat lng : Z) :
  exists index' lat' lng',
    iteration encoded index lat lng = Some (index', lat', lng')
    /\ (index + 2 <= index')%nat.
Proof.
  unfold iteration.
  destruct (readDelta_exits (S (List.length encoded)) encoded index 0 0)
    as (i1 & r1 & -> & H1); try lia.
  destruct (readDelta_exits (S (List.length encoded)) encoded i1 0 0)
    as (i2 & r2 & -> & H2); try lia.
  eexists _, _, _. split; [reflexivity | lia].
Qed.

(** The outer loop returns, with no more new points than characters left,
    and with a new point when a character is left. *)
Lemma decodeLoop_returns (fuel : nat) :
  forall (encoded : jsstring) (index : nat) (lat lng : Z)
         (coordinates : list coordinate),
    (0 < fuel)%nat ->
    (List.length encoded < index + fuel)%nat ->
    exists path,
      decodeLoop fuel encoded index lat lng coordinates = Some path
      /\ (List.length coordinates <= List.length path
          <= List.length coordinates + (List.length encoded - index))%nat
      /\ ((index < List.length encoded)%nat ->
          (List.length coordinates < List.length path)%nat).
Proof.
  induction fuel as [|fuel IH]; intros encoded index lat lng coordinates Hpos Hlen.
  - lia.
  - cbn [decodeLoop].
    destruct (index <? List.length encoded)%nat eqn:Hlt.
    + apply Nat.ltb_lt in Hlt.
      destruct (iteration_advances encoded index lat lng)
        as (i' & lat' & lng' & -> & Hadv).
      destruct (IH encoded i' lat' lng' (coordinates ++ [degrees lat' lng']))
        as (path & -> & Hlenp & _); try lia.
      rewrite length_app in Hlenp. cbn [List.length] in Hlenp.
      exists path. repeat split; lia.
    + apply Nat.ltb_ge in Hlt.
      exists coordinates. repeat split; lia.
Qed.

(** C10.  [decodePolyline] is total: on every string, one that stops in
    the middle of a delta included, it returns a list of coordinates (of
    at most as many points as the string has characters); every inner
    [do-while] loop exits, and every iteration of the outer loop strictly
    increases the index. *)
Theorem decodePolyline_total (encoded : jsstring) :
  (exists path,
      decodePolyline encoded = Some path
      /\ (List.length path <= List.length encoded)%nat)
  /\ (forall index shift result, exists index' result',
        readDelta (S (List.length encoded)) encoded index shift result
          = Some (index', result')
        /\ (index < index')%nat)
  /\ (forall index lat lng, exists index' lat' lng',
        iteration encoded index lat lng = Some (index', lat', lng')
        /\ (index < index')%nat).
Proof.
  split; [|split].
  - unfold decodePolyline.
    destruct (decodeLoop_returns (S (List.length encoded)) encoded 0 0 0 [])
      as (path & Hpath & Hlen & _); try lia.
    exists path. split; [exact Hpath|]. cbn [List.length] in Hlen. lia.
  - intros index shift result.
    apply readDelta_exits; lia.
  - intros index lat lng.
    destruct (iteration_advances encoded index lat lng)
      as (i' & lat' & lng' & Hit & Hadv).
    exists i', lat', lng'. split; [exact Hit | lia].
Qed.

(** C6.  Decoding the empty string returns the empty Path. *)
Theorem decodePolyline_empty :
  decodePolyline (codes "") = Some [].
Proof.
  unfold decodePolyline. cbn [codes List.length decodeLoop Nat.ltb Nat.leb].
  reflexivity.
Qed.

(** *** Input that stops in the middle of a delta *)

Lemma endsMidDelta_nonempty (encoded : jsstring) :
  endsMidDelta encoded = true -> (0 < List.length encoded)%nat.
Proof.
  destruct encoded as [|c encoded]; cbn.
  - discriminate.
  - lia.
Qed.

(** C2, as the specification states it, fails: the one-character string
    "_" is a continuation group with nothing after it, and it is decoded
    to the Path of the single point (0, 0), with no error. *)
Lemma decodePolyline_truncated_no_error :
  endsMidDelta (codes "_") = true
  /\ decodePolyline (codes "_") = Some [(0%float, 0%float)]
  /\ ~ (decodePolyline (codes "_") = None).
Proof.
  split; [reflexivity|]. split; [reflexivity|].
  intros H. vm_compute in H. discriminate H.
Qed.

(** More fuel does not change what the inner loop returns. *)
Lemma readDelta_more_fuel (fuel : nat) :
  forall (fuel' : nat) (encoded : jsstring) (index : nat) (shift result : Z)
         (out : nat * Z),
    (fuel <= fuel')%nat ->
    readDelta fuel encoded index shift result = Some out ->
    readDelta fuel' encoded index shift result = Some out.
Proof.
  induction fuel as [|fuel IH];
    intros fuel' encoded index shift result out Hle Hread.
  - discriminate Hread.
  - destruct fuel' as [|fuel']; [lia|].
    cbn [readDelta] in *.
    destruct (ge_0x20 (minus63 (charCodeAt encoded index))).
    + apply IH; [lia | exact Hread].
    + exact Hread.
Qed.

(** A read past the end acts like the character '?' (63), a group of
    zero bits without the continuation bit. *)
Lemma charCodeAt_completed (encoded : jsstring) (index : nat) :
  and_0x1f (minus63 (charCodeAt (encoded ++ [63]) index))
  = and_0x1f (minus63 (charCodeAt encoded index))
  /\ ge_0x20 (minus63 (charCodeAt (encoded ++ [63]) index))
     = ge_0x20 (minus63 (charCodeAt encoded index)).
Proof.
  unfold charCodeAt.
  destruct (Nat.lt_ge_cases index (List.length encoded)) as [Hin|Hout].
  - rewrite nth_error_app1 by exact Hin. split; reflexivity.
  - rewrite nth_error_app2 by exact Hout.
    rewrite (proj2 (nth_error_None encoded index) Hout).
    destruct (index - List.length encoded)%nat as [|[|k]]; cbn; split; reflexivity.
Qed.

Lemma readDelta_completed (fuel : nat) :
  forall (encoded : jsstring) (index : nat) (shift result : Z),
    readDelta fuel (encoded ++ [63]) index shift result
    = readDelta fuel encoded index shift result.
Proof.
  induction fuel as [|fuel IH]; intros encoded index shift result.
  - reflexivity.
  - cbn [readDelta].
    destruct (charCodeAt_completed encoded index) as [-> ->].
    rewrite IH. reflexivity.
Qed.

(** The inner loop stops behind a character without the continuation
    bit, or behind the end of the string. *)
Lemma readDelta_stops (fuel : nat) :
  forall (encoded : jsstring) (index : nat) (shift result : Z)
         (index' : nat) (result' : Z),
    readDelta fuel encoded index shift result = Some (index', result') ->
    (index < index')%nat
    /\ ge_0x20 (minus63 (charCodeAt encoded (index' - 1))) = false.
Proof.
  induction fuel as [|fuel IH];
    intros encoded index shift result index' result' Hread.
  - discriminate Hread.
  - cbn [readDelta] in Hread.
    destruct (ge_0x20 (minus63 (charCodeAt encoded index))) eqn:Hcont.
    + apply IH in Hread. destruct Hread as [Hlt Hstop].
      split; [lia | exact Hstop].
    + injection Hread as <- <-. split; [lia|].
      replace (S index - 1)%nat with index by lia. exact Hcont.
Qed.

Lemma endsMidDelta_last (encoded : jsstring) :
  endsMidDelta encoded = true ->
  ge_0x20 (minus63 (charCodeAt encoded (List.length encoded - 1))) = true.
Proof.
  unfold endsMidDelta, charCodeAt.
  induction encoded as [|c encoded IH]; [discriminate|].
  destruct encoded as [|c' encoded].
  - cbn. intros H. exact H.
  - intros H. specialize (IH H).
    cbn [List.length] in *.
    replace (S (S (List.length encoded)) - 1)%nat
      with (S (S (List.length encoded) - 1)) by lia.
    exact IH.
Qed.

Lemma iteration_completed (encoded : jsstring) (index : nat) (lat lng : Z) :
  iteration (encoded ++ [63]) index lat lng = iteration encoded index lat lng.
Proof.
  unfold iteration. rewrite length_app. cbn [List.length].
  destruct (readDelta_exits (S (List.length encoded)) encoded index 0 0)
    as (i1 & r1 & Hr1 & _); try lia.
  destruct (readDelta_exits (S (List.length encoded)) encoded i1 0 0)
    as (i2 & r2 & Hr2 & _); try lia.
  rewrite Hr1, Hr2.
  rewrite (readDelta_more_fuel (S (List.length encoded))
             (S (List.length encoded + 1)) (encoded ++ [63]) index 0 0
             (i1, r1));
    [|lia|rewrite readDelta_completed; exact Hr1].
  rewrite (readDelta_more_fuel (S (List.length encoded))
             (S (List.length encoded + 1)) (encoded ++ [63]) i1 0 0
             (i2, r2));
    [|lia|rewrite readDelta_completed; exact Hr2].
  reflexivity.
Qed.

Lemma iteration_stops (encoded : jsstring) (index : nat) (lat lng : Z)
    (index' : nat) (lat' lng' : Z) :
  iteration encoded index lat lng = Some (index', lat', lng') ->
  (index + 2 <= index')%nat
  /\ ge_0x20 (minus63 (charCodeAt encoded (index' - 1))) = false.
Proof.
  unfold iteration. intros Hit.
  destruct (readDelta _ encoded index 0 0) as [[i1 r1]|] eqn:Hr1;
    [|discriminate Hit].
  destruct (readDelta _ encoded i1 0 0) as [[i2 r2]|] eqn:Hr2;
    [|discriminate Hit].
  injection Hit as <- <- <-.
  apply readDelta_stops in Hr1, Hr2. split; [lia | tauto].
Qed.

(** On an input that stops in the middle of a delta the outer loop
    returns what it returns on the input completed by '?'. *)
Lemma decodeLoop_completed (encoded : jsstring) (fuel : nat) :
  endsMidDelta encoded = true ->
  forall (fuel' index : nat) (lat lng : Z) (coordinates path : list coordinate),
    index <> List.length encoded ->
    (0 < fuel')%nat ->
    (List.length encoded + 1 < index + fuel')%nat ->
    decodeLoop fuel encoded index lat lng coordinates = Some path ->
    decodeLoop fuel' (encoded ++ [63]) index lat lng coordinates = Some path.
Proof.
  intros Hmid. apply endsMidDelta_last in Hmid.
  induction fuel as [|fuel IH];
    intros fuel' index lat lng coordinates path Hne Hpos Hfuel Hloop.
  - discriminate Hloop.
  - destruct fuel' as [|fuel']; [lia|].
    cbn [decodeLoop] in *. rewrite length_app. cbn [List.length].
    destruct (index <? List.length encoded)%nat eqn:Hlt.
    + apply Nat.ltb_lt in Hlt.
      replace (index <? List.length encoded + 1)%nat with true
        by (symmetry; apply Nat.ltb_lt; lia).
      rewrite iteration_completed.
      destruct (iteration encoded index lat lng) as [[[i' lat'] lng']|] eqn:Hit;
        [|discriminate Hloop].
      apply iteration_stops in Hit. destruct Hit as [Hadv Hstop].
      apply IH; try lia; try exact Hloop.
      intros ->. rewrite Hmid in Hstop. discriminate Hstop.
    + apply Nat.ltb_ge in Hlt.
      replace (index <? List.length encoded + 1)%nat with false
        by (symmetry; apply Nat.ltb_ge; lia).
      exact Hloop.
Qed.

(** C2, amended.  An input that stops in the middle of a delta is never
    rejected: [decodePolyline] returns a Path, a non-empty one, the Path
    of the input completed by the character '?' (a group of zero bits
    that ends the delta). *)
Theorem decodePolyline_truncated_returns (encoded : jsstring) :
  endsMidDelta encoded = true ->
  exists path,
    decodePolyline encoded = Some path
    /\ path <> []
    /\ decodePolyline (encoded ++ codes "?") = Some path.
Proof.
  intros Hmid. pose proof (endsMidDelta_nonempty encoded Hmid) as Hlen.
  unfold decodePolyline.
  destruct (decodeLoop_returns (S (List.length encoded)) encoded 0 0 0 [])
    as (path & Hpath & _ & Hnew); try lia.
  exists path. split; [exact Hpath|]. split.
  - specialize (Hnew Hlen). destruct path; [cbn in Hnew; lia | discriminate].
  - change (codes "?") with [63].
    apply (decodeLoop_completed encoded (S (List.length encoded)) Hmid);
      try (rewrite length_app; cbn [List.length]); try lia.
    exact Hpath.
Qed.

Lemma decodePolyline_truncated_returns_witness :
  exists path,
    decodePolyline (codes "_p~iF~ps") = Some path
    /\ path <> []
    /\ decodePolyline (codes "_p~iF~ps" ++ codes "?") = Some path.
Proof.
  apply (decodePolyline_truncated_returns (codes "_p~iF~ps")). reflexivity.
Defined.

(** *** Reading back what the encoder writes *)

















End PathCodecProofs.

(** ** POI Scorer *)

Module ScorerProofs.
Import Scorer.

Local Open Scope string_scope.
Local Open Scope float_scope.

Section Grid.

Variable Math_log : float -> float.
Hypothesis log_10 : nearly (Math_log 10) ln_10.
Hypothesis log_1000 : nearly (Math_log 1000) ln_1000.
Hypothesis log_1000000 : nearly (Math_log 1000000) ln_1000000.

Let score (r c : float) : float :=
  calculatePOIScore Math_log r c "tourist_attraction" 0.

(** The twelve scores of the grid. *)
Lemma score_at (r c : float) :
  In r grid_ratings -> In c grid_counts ->
  In (r, c, score r c)
     [(0, 0, 43); (0, 10, 49); (0, 1000, 63); (0, 1000000, 63);
      (2.5, 0, 55); (2.5, 10, 62); (2.5, 1000, 75); (2.5, 1000000, 75);
      (5, 0, 68); (5, 10, 74); (5, 1000, 88); (5, 1000000, 88)].
Proof.
  unfold grid_ratings, grid_counts. cbn [In]. intros Hr Hc.
  unfold score, calculatePOIScore, popularityScore.
  destruct Hr as [<-|[<-|[<-|[]]]]; destruct Hc as [<-|[<-|[<-|[<-|[]]]]];
    destruct log_10 as [E10|[E10|E10]];
    destruct log_1000 as [E1000|[E1000|E1000]];
    destruct log_1000000 as [E1000000|[E1000000|E1000000]];
    rewrite ?E10, ?E1000, ?E1000000;
    vm_compute; auto 20.
Qed.

End Grid.

(** The constant components keep the score of a place with no rating
    and no reviews above zero: it is 22 at the least. *)
Lemma score_floor (Math_log : float -> float) (poiType : string)
    (distanceFromRoute : float) :
  let s := calculatePOIScore Math_log 0 0 poiType distanceFromRoute in
  (0 <? s) = true /\ (22 <=? s) = true.
Proof.
  unfold calculatePOIScore, typeScore, distanceScore.
  destruct (String.eqb poiType "tourist_attraction");
    [|destruct (String.eqb poiType "museum");
      [|destruct (String.eqb poiType "historical_site");
        [|destruct (String.eqb poiType "landmark");
          [|destruct (String.eqb poiType "park");
            [|destruct (String.eqb poiType "restaurant")]]]]];
    (destruct (distanceFromRoute <=? 500);
     [|destruct (distanceFromRoute <=? 1000);
       [|destruct (distanceFromRoute <=? 2000)]]);
    vm_compute; split; reflexivity.
Qed.

(** For a hypothesis [H] that lists the possible values of a triple
    (rating, count, score): one goal per value. *)
Ltac grid_cases H :=
  cbn [In] in H;
  repeat (destruct H as [H|H]; [injection H as <- <- <-|]);
  [..|destruct H].

(** C4.  With [Math.log] at 10, 1000 and 1000000 within one unit in the
    last place of the correctly rounded logarithm: on the grid of
    ratings {0, 2.5, 5} and review counts {0, 10, 1000, 1000000} the
    score of a tourist attraction at distance 0 lies in [0, 100] and
    does not decrease when the rating or the review count grows; and
    (the function being total) a place with no rating and no reviews has
    a score above zero, whatever its category and distance. *)
Theorem score_grid_monotone_bounded (Math_log : float -> float) :
  nearly (Math_log 10) ln_10 ->
  nearly (Math_log 1000) ln_1000 ->
  nearly (Math_log 1000000) ln_1000000 ->
  let score r c := calculatePOIScore Math_log r c "tourist_attraction" 0 in
  (forall r c, In r grid_ratings -> In c grid_counts ->
     (0 <=? score r c) = true /\ (score r c <=? 100) = true)
  /\ (forall r1 r2 c1 c2,
        In r1 grid_ratings -> In r2 grid_ratings ->
        In c1 grid_counts -> In c2 grid_counts ->
        (r1 <=? r2) = true -> (c1 <=? c2) = true ->
        (score r1 c1 <=? score r2 c2) = true)
  /\ (forall poiType distanceFromRoute,
        (0 <? calculatePOIScore Math_log 0 0 poiType distanceFromRoute) = true).
Proof.
  intros H10 H1000 H1000000 score. split; [|split].
  - intros r c Hr Hc.
    pose proof (score_at Math_log H10 H1000 H1000000 r c Hr Hc) as Hs.
    unfold score. grid_cases Hs; split; reflexivity.
  - intros r1 r2 c1 c2 Hr1 Hr2 Hc1 Hc2 Hr Hc.
    pose proof (score_at Math_log H10 H1000 H1000000 r1 c1 Hr1 Hc1) as Hs1.
    pose proof (score_at Math_log H10 H1000 H1000000 r2 c2 Hr2 Hc2) as Hs2.
    unfold score. clear Hr1 Hr2 Hc1 Hc2.
    grid_cases Hs1; grid_cases Hs2;
      try reflexivity; try (vm_compute in Hr; discriminate Hr);
      vm_compute in Hc; discriminate Hc.
  - intros poiType distanceFromRoute.
    apply (score_floor Math_log poiType distanceFromRoute).
Qed.

Lemma score_grid_monotone_bounded_witness :
  let score r c := calculatePOIScore log_table r c "tourist_attraction" 0 in
  (forall r c, In r grid_ratings -> In c grid_counts ->
     (0 <=? score r c) = true /\ (score r c <=? 100) = true)
  /\ (forall r1 r2 c1 c2,
        In r1 grid_ratings -> In r2 grid_ratings ->
        In c1 grid_counts -> In c2 grid_counts ->
        (r1 <=? r2) = true -> (c1 <=? c2) = true ->
        (score r1 c1 <=? score r2 c2) = true)
  /\ (forall poiType distanceFromRoute,
        (0 <? calculatePOIScore log_table 0 0 poiType distanceFromRoute) = true).
Proof.
  apply (score_grid_monotone_bounded log_table);
    right; left; reflexivity.
Defined.

(** *** The application scorer and the stored routine *)

Lemma rating_tenths_spec (n : Z) :
  (0 <= n <= 50)%Z -> In n rating_tenths.
Proof.
  intros Hn. unfold rating_tenths.
  apply in_map_iff. exists (Z.to_nat n). split; [lia|].
  apply in_seq. lia.
Qed.

(** C3, as the specification states it, fails: for a tourist attraction
    on the route, rated 4.5 and without reviews, [calculatePOIScore]
    returns 65 and [calculate_poi_score], with its default uniqueness
    argument, returns 70. *)
Lemma scorers_disagree :
  float_to_Q
    (calculatePOIScore log_table (Q2float 4.5%Q) 0 "tourist_attraction" 0)
  = Some 65%Q
  /\ calculate_poi_score log_table cast_exact (Some 4.5%Q) 0
       "tourist_attraction" 0 default_uniqueness_score
     = 70%Q
  /\ ~ (65 == 70)%Q.
Proof.
  split; [vm_compute; reflexivity|].
  split; [vm_compute; reflexivity|].
  intros H. vm_compute in H. discriminate H.
Qed.

Section WithoutReviews.

Variable Math_log pg_ln : float -> float.
Variable float8_to_numeric : float -> Q.

(** The two scores of a place without reviews, rated [n] tenths. *)
Let application (n : Z) (poiType : string) (distance : float) : float :=
  calculatePOIScore Math_log (Q2float (Qmake n 10)) 0 poiType distance.

Let database (n : Z) (poiType : string) (distance : float) : Q :=
  calculate_poi_score pg_ln float8_to_numeric (Some (Qmake n 10)) 0
    poiType distance default_uniqueness_score.

Lemma gap_on_tenths (poiType : string) (distance : float) :
  forallb (fun n => gap_5 (application n poiType distance)
                          (database n poiType distance))
          rating_tenths
  = true.
Proof.
  unfold application, database, calculatePOIScore, calculate_poi_score,
    typeScore, type_score, distanceScore, distance_score.
  destruct (String.eqb poiType "tourist_attraction");
    [|destruct (String.eqb poiType "museum");
      [|destruct (String.eqb poiType "historical_site");
        [|destruct (String.eqb poiType "landmark");
          [|destruct (String.eqb poiType "park");
            [|destruct (String.eqb poiType "restaurant")]]]]];
    (destruct (distance <=? 500);
     [|destruct (distance <=? 1000);
       [|destruct (distance <=? 2000)]]);
    vm_compute; reflexivity.
Qed.

End WithoutReviews.

(** C3, amended.  The two routines are different functions: the stored
    routine adds 0.10 for historical significance where
    [calculatePOIScore] adds 0.10 * 0.5, and rounds to two decimals, not
    to an integer.  For a place without reviews, of any category, at any
    distance and with any of the ratings 0.0, 0.1, ..., 5.0, the score of
    the stored routine (default uniqueness) lies 4.5 to 5.5 points above
    the score of [calculatePOIScore]. *)
Theorem scorers_differ_without_reviews
    (Math_log pg_ln : float -> float) (float8_to_numeric : float -> Q)
    (n : Z) (poiType : string) (distance : float) :
  (0 <= n <= 50)%Z ->
  exists app : Q,
    float_to_Q
      (calculatePOIScore Math_log (Q2float (Qmake n 10)) 0 poiType distance)
    = Some app
    /\ (app + 4.5
        <= calculate_poi_score pg_ln float8_to_numeric (Some (Qmake n 10)) 0
             poiType distance default_uniqueness_score
        <= app + 5.5)%Q.
Proof.
  intros Hn.
  pose proof (gap_on_tenths Math_log pg_ln float8_to_numeric poiType distance)
    as Hall.
  rewrite forallb_forall in Hall.
  specialize (Hall n (rating_tenths_spec n Hn)).
  unfold gap_5 in Hall.
  destruct (float_to_Q _) as [app|]; [|discriminate Hall].
  apply andb_true_iff in Hall. destruct Hall as [Hlo Hhi].
  exists app. split; [reflexivity|].
  split; apply Qle_bool_iff; assumption.
Qed.

Lemma scorers_differ_without_reviews_witness :
  exists app : Q,
    float_to_Q
      (calculatePOIScore log_table (Q2float (Qmake 45 10)) 0
         "tourist_attraction" 0)
    = Some app
    /\ (app + 4.5
        <= calculate_poi_score log_table cast_exact (Some (Qmake 45 10)) 0
             "tourist_attraction" 0 default_uniqueness_score
        <= app + 5.5)%Q.
Proof.
  apply (scorers_differ_without_reviews log_table log_table cast_exact 45).
  lia.
Defined.

End ScorerProofs.

(** ** POI Aggregator *)

Module AggregatorProofs.
Import Scorer Aggregator.

Local Open Scope string_scope.

(** *** The merge keeps the first occurrence of every identifier *)

Lemma sameId_true (id : string) (p : POI) :
  sameId id p = true <-> google_place_id p = id.
Proof.
  unfold sameId. apply String.eqb_eq.
Qed.



Lemma addPOI_NoDup (acc : list POI) (a : POI) :
  NoDup (map google_place_id acc) ->
  NoDup (map google_place_id (addPOI acc a)).
Proof.
  intros Hnd. unfold addPOI.
  destruct (find (sameId (google_place_id a)) acc) as [e|] eqn:Hfind.
  - exact Hnd.
  - rewrite map_app. cbn [map].
    apply (Permutation_NoDup (Permutation_cons_append _ _)).
    constructor; [|exact Hnd].
    intros Hin. apply in_map_iff in Hin. destruct Hin as (x & Hx & Hin).
    pose proof (find_none _ _ Hfind x Hin) as Hno.
    apply sameId_true in Hx. congruence.
Qed.

Lemma merge_NoDup (l : list POI) :
  forall acc : list POI,
    NoDup (map google_place_id acc) ->
    NoDup (map google_place_id (fold_left addPOI l acc)).
Proof.
  induction l as [|a l IH]; intros acc Hnd; cbn [fold_left].
  - exact Hnd.
  - apply IH, addPOI_NoDup, Hnd.
Qed.





(** *** The loop over the sample points *)



(** The fuel of the loop suffices: every index [i + j * k] below [n] is
    visited. *)
Lemma sampleIndices_visits (fuel n k : nat) :
  forall i j,
    (1 <= k)%nat -> (n <= i + fuel)%nat -> (i + j * k < n)%nat ->
    In (i + j * k)%nat (sampleIndices fuel n k i).
Proof.
  induction fuel as [|fuel IH]; intros i j Hk Hfuel Hbelow.
  - nia.
  - cbn [sampleIndices].
    replace (i <? n)%nat with true by (symmetry; apply Nat.ltb_lt; nia).
    destruct j as [|j].
    + left. lia.
    + right.
      replace (i + S j * k)%nat with ((i + k) + j * k)%nat by lia.
      apply IH; [exact Hk | lia | lia].
Qed.

(** *** The stable sort and the cap *)

Lemma insertPOI_perm (x : POI) (l : list POI) :
  Permutation (insertPOI x l) (x :: l).
Proof.
  induction l as [|y l IH]; cbn [insertPOI].
  - reflexivity.
  - destruct (goesBehind x y); [|reflexivity].
    rewrite IH. apply perm_swap.
Qed.

Lemma sortByScore_perm (l : list POI) : Permutation (sortByScore l) l.
Proof.
  induction l as [|x l IH]; cbn [sortByScore fold_right].
  - reflexivity.
  - rewrite insertPOI_perm. constructor. exact IH.
Qed.

Lemma firstn_incl {A : Type} (n : nat) (l : list A) (x : A) :
  In x (firstn n l) -> In x l.
Proof.
  intros Hin. rewrite <- (firstn_skipn n l). apply in_or_app. left. exact Hin.
Qed.

Lemma firstn_NoDup_ids (n : nat) (l : list POI) :
  NoDup (map google_place_id l) ->
  NoDup (map google_place_id (firstn n l)).
Proof.
  intros Hnd. rewrite <- (firstn_skipn n l), map_app in Hnd.
  apply NoDup_app_remove_r in Hnd. exact Hnd.
Qed.

Section Discovery.

Variable Math_log : float -> float.
Variable nearbysearch : nat -> SearchOutcome.
Variable coordinates : list (float * float).

Let candidates := candidates Math_log nearbysearch coordinates.
Let merged := discoveredPOIs Math_log nearbysearch coordinates.

Lemma sampleStep_merge (acc : list POI) (i : nat) :
  sampleStep Math_log nearbysearch acc i
  = fold_left addPOI (candidatesAt Math_log nearbysearch i) acc.
Proof.
  unfold sampleStep, candidatesAt.
  destruct (nearbysearch i) as [|results]; [reflexivity|].
  generalize (firstn maxPOIsPerSearch results) as l. intros l. revert acc.
  induction l as [|place l IH]; intros acc;
    cbn [processResults builtPOIs fold_left].
  - reflexivity.
  - destruct (geometry_location place); [apply IH | reflexivity].
Qed.

(** The merged list is the stream of candidates, deduplicated. *)
Lemma merged_candidates : merged = fold_left addPOI candidates [].
Proof.
  unfold merged, discoveredPOIs, candidates, Aggregator.candidates.
  generalize (samples coordinates) as l. intros l.
  generalize (@nil POI) as acc. induction l as [|i l IH]; intros acc.
  - reflexivity.
  - cbn [fold_left flat_map]. rewrite fold_left_app, <- sampleStep_merge.
    apply IH.
Qed.

Lemma merged_NoDup : NoDup (map google_place_id merged).
Proof.
  rewrite merged_candidates. apply merge_NoDup. constructor.
Qed.

Lemma candidatesAt_index (i : nat) (c : POI) :
  In c (candidatesAt Math_log nearbysearch i) -> route_coordinate_index c = i.
Proof.
  unfold candidatesAt. destruct (nearbysearch i) as [|results]; [intros []|].
  generalize (firstn maxPOIsPerSearch results) as l. intros l.
  induction l as [|place l IH]; cbn [builtPOIs]; [intros []|].
  destruct (geometry_location place); [|intros []].
  intros [<-|Hin]; [reflexivity | apply IH, Hin].
Qed.


End Discovery.




End AggregatorProofs.


(** ** Route Variant Selector *)

Module SelectorProofs.
Import PathCodec Selector.

Local Open Scope string_scope.

Section Directions.

Variables Step Instruction : Type.
Variable convert : list Step -> list Instruction.

(** A successful [calculateScenicRoute] returns the baseline route
    itself: the duration is the baseline duration, the increase 0. *)
Lemma scenic_route_is_baseline (apiKey : option string)
    (directions : float * float -> float * float -> DirectionsOutcome Step)
    (startCoords endCoords : float * float) (preferences : Preferences)
    (route : ScenicRoute Instruction) :
  calculateScenicRoute Step Instruction convert apiKey directions
    startCoords endCoords preferences
  = RouteSuccess Instruction route ->
  estimated_time_seconds Instruction route
  = baseline_time_seconds Instruction route
  /\ time_increase_percent Instruction route = 0
  /\ waypoints Instruction route = [].
Proof.
  unfold calculateScenicRoute. intros Hcall.
  destruct apiKey; [|discriminate Hcall].
  destruct (directions startCoords endCoords) as [|data]; [discriminate Hcall|].
  destruct (negb (String.eqb (directions_status Step data) "OK")
            || (List.length (routes Step data) =? 0)%nat);
    [discriminate Hcall|].
  destruct (routes Step data) as [|baselineRoute ?]; [discriminate Hcall|].
  destruct (legs Step baselineRoute) as [|leg ?]; [discriminate Hcall|].
  destruct (decodePolyline (overview_polyline_points Step baselineRoute));
    [|discriminate Hcall].
  injection Hcall as <-. cbn. repeat split.
Qed.

End Directions.



End SelectorProofs.

(** ** Progress Tracker *)

Module ProgressProofs.
Import Scorer Aggregator Selector Progress.

Local Open Scope string_scope.

(** C1, as the specification states it, fails: when the directions
    request finds no route the row goes from (processing, 10) to
    (failed, 0): the progress is not frozen at its last value, and this
    transition decreases it. *)
Lemma failure_resets_progress :
  let history :=
    snd (generateRoute log_table unit unit (fun steps => steps)
           noRouteWorld "POST" exampleRequest) in
  history = [ {| status := failed; generation_progress := 0 |};
              {| status := processing; generation_progress := 10 |} ]
  /\ exists before after,
       In (before, after) (transitions history)
       /\ status after = failed
       /\ generation_progress after < generation_progress before.
Proof.
  split; [vm_compute; reflexivity|].
  exists {| status := processing; generation_progress := 10 |},
         {| status := failed; generation_progress := 0 |}.
  split; [vm_compute; left; reflexivity|].
  split; [reflexivity | cbn; lia].
Qed.

(** C1, amended.  In every run of the handler: no transition leaves a
    terminal state; a transition that does not enter [failed] does not
    decrease the progress; the transition into [failed], taken when the
    route calculation fails, goes directly from (processing, 10) to
    (failed, 0), the progress reset to 0; and the progress stays within
    [0, 100]. *)
Theorem handler_transitions (Math_log : float -> float)
    (Step Instruction : Type) (convert : list Step -> list Instruction)
    (w : World Step) (method : string) (requestData : RouteRequest) :
  let run := generateRoute Math_log Step Instruction convert w method
               requestData in
  Forall lawful (transitions (snd run))
  /\ Forall inRange (snd run)
  /\ (fst run = ErrorResponse Instruction 500 "ROUTE_GENERATION_FAILED" ->
      updateApplied Step w 0 = true ->
      snd run = [ {| status := failed; generation_progress := 0 |};
                  {| status := processing; generation_progress := 10 |} ]).
Proof.
  unfold generateRoute.
  destruct (negb (String.eqb method "POST"));
    [cbn; repeat split; try constructor; discriminate|].
  destruct (start_location requestData) as [start_loc|];
    [|cbn; repeat split; try constructor; discriminate].
  destruct (end_location requestData) as [end_loc|];
    [|cbn; repeat split; try constructor; discriminate].
  destruct (getCoordinates (geocode Step w) start_loc) as [startCoords|];
    [|cbn; repeat split; try constructor; discriminate].
  destruct (getCoordinates (geocode Step w) end_loc) as [endCoords|];
    [|cbn; repeat split; try constructor; discriminate].
  unfold insertRoute.
  destruct (insertError Step w);
    [cbn; repeat split; try constructor; discriminate|].
  destruct (calculateScenicRoute _ _ _ _ _ _ _ _) as [error|routeData];
    cbn [fst snd].
  - destruct (updateApplied Step w 0);
      cbn [updateRoute applyUpdate new_status new_progress status
           generation_progress transitions].
    + split; [|split].
      * repeat constructor; cbn; try lia; try discriminate. congruence.
      * repeat constructor; cbn; lia.
      * reflexivity.
    + split; [|split].
      * constructor.
      * repeat constructor; cbn; lia.
      * intros _ H. discriminate H.
  - split; [|split; [|discriminate]].
    + destruct (updateApplied Step w 0), (updateApplied Step w 1),
        (updateApplied Step w 2);
        cbn [updateRoute applyUpdate new_status new_progress status
             generation_progress transitions];
        repeat constructor; cbn; try lia; try discriminate.
    + destruct (updateApplied Step w 0), (updateApplied Step w 1),
        (updateApplied Step w 2);
        cbn [updateRoute applyUpdate new_status new_progress status
             generation_progress];
        repeat constructor; cbn; lia.
Qed.

End ProgressProofs.

(** ** On-route test *)

Module ValidationProofs.
Import Validation.

Local Open Scope string_scope.


Section OnRoute.

Variable LineString : Type.
Variable ST_Distance : float * float -> LineString -> float.



End OnRoute.



End ValidationProofs.

(** ** Turn instructions *)

Module InstructionsProofs.
Import Instructions.

Local Open Scope string_scope.

(** What is left of a string was in the string. *)
Lemma hasGt_strip (s : string) :
  (hasGt (stripTags s) = true -> hasGt s = true)
  /\ (hasGt (skipTag s) = true -> hasGt s = true).
Proof.
  induction s as [|c s [IHstrip IHskip]]; cbn [stripTags skipTag hasGt].
  - split; intros H; exact H.
  - split.
    + destruct (Ascii.eqb c "<" && hasGt s) eqn:Htag.
      * intros H. destruct (Ascii.eqb c ">"); [reflexivity | apply IHskip, H].
      * cbn [hasGt]. destruct (Ascii.eqb c ">"); [reflexivity | apply IHstrip].
    + destruct (Ascii.eqb c ">"); [reflexivity | apply IHskip].
Qed.

Lemma strip_leaves_no_tag (s : string) :
  containsTag (stripTags s) = false /\ containsTag (skipTag s) = false.
Proof.
  induction s as [|c s [IHstrip IHskip]]; cbn [stripTags skipTag containsTag].
  - split; reflexivity.
  - split.
    + destruct (Ascii.eqb c "<" && hasGt s) eqn:Htag; [exact IHskip|].
      cbn [containsTag]. rewrite IHstrip, orb_false_r.
      destruct (Ascii.eqb c "<"); [|reflexivity]. cbn [andb] in *.
      destruct (hasGt (stripTags s)) eqn:Hgt; [|reflexivity].
      apply hasGt_strip in Hgt. congruence.
    + destruct (Ascii.eqb c ">"); assumption.
Qed.

Lemma strip_without_tag (s : string) :
  containsTag s = false -> stripTags s = s.
Proof.
  induction s as [|c s IH]; cbn [stripTags containsTag]; [reflexivity|].
  intros H. apply orb_false_iff in H. destruct H as [-> Hrest].
  rewrite IH by exact Hrest. reflexivity.
Qed.

(** The instruction text has no HTML tag left: the pattern [<[^>]*>]
    matches nowhere in the result of [stripTags]; so stripping twice
    changes nothing more, and a text without a tag is kept as it is. *)
Theorem stripTags_removes_every_tag (s : string) :
  containsTag (stripTags s) = false
  /\ stripTags (stripTags s) = stripTags s
  /\ (containsTag s = false -> stripTags s = s).
Proof.
  split; [apply strip_leaves_no_tag|].
  split; [apply strip_without_tag, strip_leaves_no_tag|].
  apply strip_without_tag.
Qed.




End InstructionsProofs.

(** ** The order of binary64 numbers *)

Module FloatOrder.

Local Open Scope float_scope.

Lemma SFcompare_antisym (a b : spec_float) (c : comparison) :
  SFcompare a b = Some c -> SFcompare b a = Some (CompOpp c).
Proof.
  destruct a as [sa|sa| |sa ma ea], b as [sb|sb| |sb mb eb]; cbn;
    try discriminate; intros H; injection H as <-; f_equal;
    repeat match goal with s : bool |- _ => destruct s end;
    cbn; try reflexivity.
  all: change (Pos.compare_cont Eq mb ma) with (Pos.compare mb ma);
    change (Pos.compare_cont Eq ma mb) with (Pos.compare ma mb);
    rewrite (Z.compare_antisym ea eb), (Pos.compare_antisym ma mb);
    destruct (ea ?= eb)%Z; cbn [CompOpp]; try reflexivity;
    destruct (ma ?= mb)%positive; reflexivity.
Qed.

(** Two numbers that are not [NaN] are comparable. *)
Lemma not_nan_compare (x y : float) :
  is_nan x = false -> is_nan y = false ->
  exists c, SFcompare (Prim2SF x) (Prim2SF y) = Some c.
Proof.
  unfold is_nan. rewrite !eqb_spec. unfold SFeqb.
  destruct (Prim2SF x) as [sa|sa| |sa ma ea],
    (Prim2SF y) as [sb|sb| |sb mb eb];
    cbn; try discriminate; intros _ _; eexists; reflexivity.
Qed.

Lemma ltb_leb (x y : float) : (x <? y) = true -> (x <=? y) = true.
Proof.
  rewrite ltb_spec, leb_spec. unfold SFltb, SFleb.
  destruct (SFcompare _ _) as [[| |]|]; congruence.
Qed.

Lemma leb_false_ltb (x y : float) :
  is_nan x = false -> is_nan y = false ->
  (x <=? y) = false -> (y <? x) = true.
Proof.
  intros Hx Hy. destruct (not_nan_compare x y Hx Hy) as [c Hc].
  rewrite ltb_spec, leb_spec. unfold SFltb, SFleb.
  rewrite (SFcompare_antisym _ _ _ Hc), Hc. destruct c; cbn; congruence.
Qed.

Lemma ltb_false_leb (x y : float) :
  is_nan x = false -> is_nan y = false ->
  (x <? y) = false -> (y <=? x) = true.
Proof.
  intros Hx Hy. destruct (not_nan_compare x y Hx Hy) as [c Hc].
  rewrite ltb_spec, leb_spec. unfold SFltb, SFleb.
  rewrite (SFcompare_antisym _ _ _ Hc), Hc. destruct c; cbn; congruence.
Qed.

Lemma ltb_leb_false (x y : float) : (x <? y) = true -> (y <=? x) = false.
Proof.
  rewrite ltb_spec, leb_spec. unfold SFltb, SFleb.
  destruct (SFcompare (Prim2SF x) (Prim2SF y)) as [c|] eqn:Hc;
    [|discriminate].
  rewrite (SFcompare_antisym _ _ _ Hc). destruct c; cbn; congruence.
Qed.

(** A comparison that holds has no [NaN] on either side. *)
Lemma leb_not_nan (x y : float) :
  (x <=? y) = true -> is_nan x = false /\ is_nan y = false.
Proof.
  unfold is_nan. rewrite leb_spec, !eqb_spec. unfold SFleb, SFeqb.
  destruct (Prim2SF x) as [sa|sa| |sa ma ea],
    (Prim2SF y) as [sb|sb| |sb mb eb];
    cbn; try discriminate; intros _;
    rewrite ?Z.compare_refl, ?Pos.compare_cont_refl;
    repeat match goal with s : bool |- _ => destruct s end;
    cbn; rewrite ?Z.compare_refl, ?Pos.compare_cont_refl; split; reflexivity.
Qed.

Lemma SFleb_trans (a b c : spec_float) :
  SFleb a b = true -> SFleb b c = true -> SFleb a c = true.
Proof.
  unfold SFleb.
  destruct a as [sa|sa| |sa ma ea], b as [sb|sb| |sb mb eb],
    c as [sc|sc| |sc mc ec]; cbn; try discriminate; try reflexivity;
    try (destruct sa; try discriminate; try reflexivity);
    try (destruct sb; try discriminate; try reflexivity);
    try (destruct sc; try discriminate; try reflexivity).
  all: destruct (Z.compare_spec ea eb), (Z.compare_spec eb ec),
         (Z.compare_spec ea ec); cbn; subst; try lia; try discriminate;
         try reflexivity.
  all: change (Pos.compare_cont Eq) with Pos.compare.
  all: destruct (Pos.compare_spec ma mb), (Pos.compare_spec mb mc),
         (Pos.compare_spec ma mc); cbn; subst; try lia; try discriminate;
         try reflexivity.
Qed.

Lemma leb_trans (x y z : float) :
  (x <=? y) = true -> (y <=? z) = true -> (x <=? z) = true.
Proof.
  rewrite !leb_spec. apply SFleb_trans.
Qed.

Lemma leb_refl (x : float) : is_nan x = false -> (x <=? x) = true.
Proof.
  intros Hx. destruct (not_nan_compare x x Hx Hx) as [c Hc].
  pose proof (SFcompare_antisym _ _ _ Hc) as Hc'.
  rewrite leb_spec. unfold SFleb. rewrite Hc in Hc' |- *.
  destruct c; try reflexivity; discriminate Hc'.
Qed.

Lemma leb_negb_ltb (x y : float) :
  is_nan x = false -> is_nan y = false -> (x <=? y) = negb (y <? x).
Proof.
  intros Hx Hy. destruct (y <? x) eqn:Hlt; cbn [negb].
  - apply ltb_leb_false, Hlt.
  - apply ltb_false_leb; assumption.
Qed.

(** A comparison with [NaN] does not hold. *)
Lemma leb_nan_l (x y : float) : is_nan x = true -> (x <=? y) = false.
Proof.
  intros Hx. destruct (x <=? y) eqn:Hle; [|reflexivity].
  apply leb_not_nan in Hle. destruct Hle as [Hle _]. congruence.
Qed.

Lemma leb_nan_r (x y : float) : is_nan y = true -> (x <=? y) = false.
Proof.
  intros Hy. destruct (x <=? y) eqn:Hle; [|reflexivity].
  apply leb_not_nan in Hle. destruct Hle as [_ Hle]. congruence.
Qed.

Lemma ltb_nan_l (x y : float) : is_nan x = true -> (x <? y) = false.
Proof.
  intros Hx. destruct (x <? y) eqn:Hlt; [|reflexivity].
  apply ltb_leb, leb_not_nan in Hlt. destruct Hlt as [Hlt _]. congruence.
Qed.

Lemma ltb_nan_r (x y : float) : is_nan y = true -> (x <? y) = false.
Proof.
  intros Hy. destruct (x <? y) eqn:Hlt; [|reflexivity].
  apply ltb_leb, leb_not_nan in Hlt. destruct Hlt as [_ Hlt]. congruence.
Qed.

End FloatOrder.

(** ** Stories *)

Module StoriesProofs.
Import Scorer Aggregator Stories FloatOrder.

Local Open Scope float_scope.

(** Of two numbers, [Math.max] gives one that is not below the first. *)
Lemma Math_max_1 (f : float) :
  is_nan f = false ->
  Math_max 1 f = 1 \/ (Math_max 1 f = f /\ (1 <=? f) = true).
Proof.
  intros Hf. unfold Math_max. rewrite Hf. cbn [is_nan orb].
  change (is_nan 1) with false. cbn [orb].
  destruct (1 <? f) eqn:Hlt.
  - right. split; [reflexivity | apply ltb_leb, Hlt].
  - destruct (f <? 1); left; reflexivity.
Qed.

Lemma Math_min_10 (m : float) :
  is_nan m = false -> (1 <=? m) = true ->
  (1 <=? Math_min 10 m) = true /\ (Math_min 10 m <=? 10) = true.
Proof.
  intros Hm Hone. unfold Math_min. rewrite Hm.
  change (is_nan 10) with false. cbn [orb].
  destruct (10 <? m) eqn:Hbig; [split; reflexivity|].
  assert (Hle : (m <=? 10) = true)
    by (apply ltb_false_leb; [reflexivity | exact Hm | exact Hbig]).
  destruct (m <? 10); [split; assumption|].
  change (get_sign 10) with false. cbn iota. split; assumption.
Qed.

(** The priority of a story lies in [1, 10], the range of the CHECK of
    the column [priority], unless the score is so that
    [Math.floor(score / 10)] is [NaN], and then it is [NaN]; for the
    integer scores 0 to 100 it is the tens digit of the score, raised to
    1 where that is 0. *)
Theorem story_priority_in_range (popularity_score : float) :
  (if is_nan (Math_floor (popularity_score / 10))
   then is_nan (storyPriority popularity_score) = true
   else (1 <=? storyPriority popularity_score) = true
        /\ (storyPriority popularity_score <=? 10) = true)
  /\ forall n : Z,
       (0 <= n <= 100)%Z ->
       storyPriority (Z2float n) = Z2float (Z.max 1 (n / 10)).
Proof.
  split.
  - unfold storyPriority.
    destruct (is_nan (Math_floor (popularity_score / 10))) eqn:Hnan.
    + unfold Math_max. rewrite Hnan, orb_true_r. reflexivity.
    + destruct (Math_max_1 _ Hnan) as [->|[-> Hone]].
      * split; reflexivity.
      * apply Math_min_10; assumption.
  - intros n Hn.
    assert (Hall : forallb (fun n => Leibniz.eqb (storyPriority (Z2float n))
                                       (Z2float (Z.max 1 (n / 10))))
                     RouteStatus.progressValues = true)
      by (vm_compute; reflexivity).
    rewrite forallb_forall in Hall.
    apply Leibniz.eqb_spec, Hall.
    unfold RouteStatus.progressValues. apply in_map_iff.
    exists (Z.to_nat n). split; [lia|]. apply in_seq. lia.
Qed.

Section Generation.

Variable randomUUID : nat -> string.
Variable upsertPOI : POI -> option string.
Variable insertStory : string -> Story -> bool.

Lemma storiesFrom_spec (poisData : list POI) :
  forall (i : nat) (stories : list Story),
    storiesFrom randomUUID upsertPOI insertStory i poisData stories
    = stories
      ++ map (fun ip => storyFor randomUUID (fst ip) (snd ip))
           (filter (fun ip => stored randomUUID upsertPOI insertStory
                                 (fst ip) (snd ip))
              (combine (seq i (List.length poisData)) poisData)).
Proof.
  induction poisData as [|poi rest IH]; intros i stories;
    cbn [storiesFrom List.length seq combine filter map fst snd].
  - rewrite app_nil_r. reflexivity.
  - unfold stored at 1. cbn [fst snd].
    destruct (upsertPOI poi) as [record|].
    + destruct (insertStory record (storyFor randomUUID i poi)).
      * rewrite IH, <- app_assoc. reflexivity.
      * apply IH.
    + apply IH.
Qed.

End Generation.

Lemma combine_seq_nth {A : Type} (l : list A) (i : nat) (x : A) :
  In (i, x) (combine (seq 0 (List.length l)) l) <-> nth_error l i = Some x.
Proof.
  assert (Hgen : forall l k,
             In (i, x) (combine (seq k (List.length l)) l)
             <-> (k <= i)%nat /\ nth_error l (i - k) = Some x).
  { clear l. induction l as [|y l IH]; intros k;
      cbn [List.length seq combine In].
    - split; [intros [] | intros [_ H]].
      destruct (i - k)%nat; discriminate H.
    - rewrite IH. split.
      + intros [H|[Hle Hnth]].
        * injection H as <- <-. rewrite Nat.sub_diag.
          split; [lia|reflexivity].
        * split; [lia|].
          replace (i - k)%nat with (S (i - S k)) by lia. exact Hnth.
      + intros [Hle Hnth].
        destruct (Nat.eq_dec i k) as [->|Hne].
        * rewrite Nat.sub_diag in Hnth. injection Hnth as ->.
          left. reflexivity.
        * right. split; [lia|].
          replace (i - k)%nat with (S (i - S k)) in Hnth by lia. exact Hnth. }
  rewrite Hgen, Nat.sub_0_r.
  split; [tauto | intros H; split; [lia | exact H]].
Qed.

(** The stories are those of the iterations whose two writes succeed. *)
Lemma generateStories_filter (randomUUID : nat -> string)
    (upsertPOI : POI -> option string) (insertStory : string -> Story -> bool)
    (poisData : list POI) :
  generateStoriesForPOIs randomUUID upsertPOI insertStory poisData
  = map (fun ip => storyFor randomUUID (fst ip) (snd ip))
      (filter (fun ip => stored randomUUID upsertPOI insertStory
                           (fst ip) (snd ip))
         (combine (seq 0 (List.length poisData)) poisData)).
Proof.
  unfold generateStoriesForPOIs.
  rewrite (storiesFrom_spec randomUUID upsertPOI insertStory). reflexivity.
Qed.

Lemma generateStories_length (randomUUID : nat -> string)
    (upsertPOI : POI -> option string) (insertStory : string -> Story -> bool)
    (poisData : list POI) :
  (List.length
     (generateStoriesForPOIs randomUUID upsertPOI insertStory poisData)
   <= List.length poisData)%nat.
Proof.
  rewrite generateStories_filter, length_map.
  etransitivity; [apply filter_length_le|].
  rewrite length_combine, length_seq. lia.
Qed.

Lemma generateStories_In (randomUUID : nat -> string)
    (upsertPOI : POI -> option string) (insertStory : string -> Story -> bool)
    (poisData : list POI) (story : Story) :
  In story (generateStoriesForPOIs randomUUID upsertPOI insertStory poisData)
  <-> exists i poi poiRecord,
        nth_error poisData i = Some poi
        /\ upsertPOI poi = Some poiRecord
        /\ insertStory poiRecord (storyFor randomUUID i poi) = true
        /\ story = storyFor randomUUID i poi.
Proof.
  rewrite generateStories_filter, in_map_iff. split.
  - intros ([i poi] & <- & Hf). apply filter_In in Hf.
    destruct Hf as [Hc Hstored]. cbn [fst snd] in *.
    apply combine_seq_nth in Hc. unfold stored in Hstored.
    destruct (upsertPOI poi) as [poiRecord|] eqn:Hup; [|discriminate].
    exists i, poi, poiRecord. repeat split; assumption.
  - intros (i & poi & poiRecord & Hnth & Hup & Hins & ->).
    exists (i, poi). split; [reflexivity|].
    apply filter_In. split; [apply combine_seq_nth, Hnth|].
    cbn [fst snd]. unfold stored. rewrite Hup. exact Hins.
Qed.

(** [generateStoriesForPOIs] returns, in the order of the POIs, the
    stories of exactly those POIs whose upsert and whose story insert
    both succeeded: never a story that was not stored, never more
    stories than POIs; and a story carries the location and the sample
    index of its POI, 30 seconds of trigger time per index, a radius of
    200 meters. *)
Theorem stories_are_the_stored_ones (randomUUID : nat -> string)
    (upsertPOI : POI -> option string) (insertStory : string -> Story -> bool)
    (poisData : list POI) :
  let stories :=
    generateStoriesForPOIs randomUUID upsertPOI insertStory poisData in
  (List.length stories <= List.length poisData)%nat
  /\ stories
     = map (fun ip => storyFor randomUUID (fst ip) (snd ip))
         (filter (fun ip => match upsertPOI (snd ip) with
                            | Some poiRecord =>
                                insertStory poiRecord
                                  (storyFor randomUUID (fst ip) (snd ip))
                            | None => false
                            end)
            (combine (seq 0 (List.length poisData)) poisData))
  /\ (forall story,
        In story stories <->
        exists i poi poiRecord,
          nth_error poisData i = Some poi
          /\ upsertPOI poi = Some poiRecord
          /\ insertStory poiRecord (storyFor randomUUID i poi) = true
          /\ story = storyFor randomUUID i poi)
  /\ (forall story,
        In story stories ->
        exists poi,
          In poi poisData
          /\ trigger_location story = location poi
          /\ story_coordinate_index story = route_coordinate_index poi
          /\ estimated_trigger_time story
             = (route_coordinate_index poi * 30)%nat
          /\ trigger_radius_meters story = 200%Z).
Proof.
  intros stories. split; [|split; [|split]].
  - apply generateStories_length.
  - apply generateStories_filter.
  - intros story. apply generateStories_In.
  - intros story Hstory. apply generateStories_In in Hstory.
    destruct Hstory as (i & poi & poiRecord & Hnth & _ & _ & ->).
    exists poi. split; [apply (nth_error_In _ _ Hnth)|].
    repeat split.
Qed.

End StoriesProofs.

(** ** The decoder: how many points *)

Module PathCodecCount.
Import PathCodec PathCodecProofs.

(** Every iteration of the outer loop reads at least two characters for
    its point. *)
Lemma decodeLoop_count (fuel : nat) :
  forall (encoded : jsstring) (index : nat) (lat lng : Z)
         (coordinates : list coordinate),
    (0 < fuel)%nat ->
    (List.length encoded < index + fuel)%nat ->
    exists path,
      decodeLoop fuel encoded index lat lng coordinates = Some path
      /\ (2 * List.length path
          <= 2 * List.length coordinates + (List.length encoded - index) + 1)%nat
      /\ (List.length coordinates <= List.length path)%nat
      /\ ((index < List.length encoded)%nat ->
          (List.length coordinates < List.length path)%nat)
      /\ ((List.length encoded <= index)%nat -> path = coordinates).
Proof.
  induction fuel as [|fuel IH]; intros encoded index lat lng coordinates Hpos Hlen.
  - lia.
  - cbn [decodeLoop].
    destruct (index <? List.length encoded)%nat eqn:Hlt.
    + apply Nat.ltb_lt in Hlt.
      destruct (iteration_advances encoded index lat lng)
        as (i' & lat' & lng' & -> & Hadv).
      destruct (IH encoded i' lat' lng' (coordinates ++ [degrees lat' lng']))
        as (path & -> & Hcount & Hlow & _ & _); try lia.
      rewrite length_app in Hcount, Hlow. cbn [List.length] in Hcount, Hlow.
      exists path. repeat split; lia.
    + apply Nat.ltb_ge in Hlt.
      exists coordinates. repeat split; lia.
Qed.

(** [decodePolyline] returns at most one point for every two characters
    of the string, rounded up, and it returns no point only for the
    empty string. *)
Theorem decoded_point_count (encoded : jsstring) :
  exists path,
    decodePolyline encoded = Some path
    /\ (2 * List.length path <= List.length encoded + 1)%nat
    /\ (path = [] <-> encoded = []).
Proof.
  unfold decodePolyline.
  destruct (decodeLoop_count (S (List.length encoded)) encoded 0 0 0 [])
    as (path & Hpath & Hcount & _ & Hsome & Hnone); try lia.
  exists path. split; [exact Hpath|]. cbn [List.length] in Hcount, Hsome.
  split; [lia|]. split.
  - intros ->. cbn [List.length] in Hsome.
    destruct encoded as [|c encoded]; [reflexivity|].
    cbn [List.length] in Hsome. lia.
  - intros ->. apply Hnone. cbn. lia.
Qed.

End PathCodecCount.

(** ** Discovery: the searches and the result *)

Module DiscoveryProofs.
Import Scorer Aggregator AggregatorProofs.

Lemma sampleIndices_below (fuel n k : nat) :
  forall i x, In x (sampleIndices fuel n k i) -> (x < n)%nat.
Proof.
  induction fuel as [|fuel IH]; intros i x Hin; cbn [sampleIndices] in Hin.
  - destruct Hin.
  - destruct (i <? n)%nat eqn:Hlt; [|destruct Hin].
    apply Nat.ltb_lt in Hlt.
    destruct Hin as [<-|Hin]; [exact Hlt|].
    apply (IH _ _ Hin).
Qed.

(** With an interval of 1 every index is a sample. *)
Lemma sampleIndices_all (fuel n : nat) :
  forall i, (n <= i + fuel)%nat -> sampleIndices fuel n 1 i = seq i (n - i).
Proof.
  induction fuel as [|fuel IH]; intros i Hfuel; cbn [sampleIndices].
  - replace (n - i)%nat with 0%nat by lia. reflexivity.
  - destruct (i <? n)%nat eqn:Hlt.
    + apply Nat.ltb_lt in Hlt.
      replace (n - i)%nat with (S (n - S i)) by lia. cbn [seq].
      rewrite IH by lia. replace (i + 1)%nat with (S i) by lia.
      replace (n - (i + 1))%nat with (n - S i)%nat by lia. reflexivity.
    + apply Nat.ltb_ge in Hlt.
      replace (n - i)%nat with 0%nat by lia. reflexivity.
Qed.

(** The number of samples: the indices [i], [i + k], ... below [n]. *)
Lemma sampleIndices_length (fuel n k : nat) :
  forall i,
    (1 <= k)%nat -> (n <= i + fuel)%nat ->
    List.length (sampleIndices fuel n k i) = ((n - i + (k - 1)) / k)%nat.
Proof.
  induction fuel as [|fuel IH]; intros i Hk Hfuel; cbn [sampleIndices].
  - replace (n - i)%nat with 0%nat by lia.
    rewrite Nat.div_small by lia. reflexivity.
  - destruct (i <? n)%nat eqn:Hlt.
    + apply Nat.ltb_lt in Hlt. cbn [List.length]. rewrite IH by lia.
      destruct (Nat.le_gt_cases k (n - i)) as [Hge|Hsmall].
      * replace (n - i + (k - 1))%nat
          with ((n - (i + k) + (k - 1)) + 1 * k)%nat by lia.
        rewrite Nat.div_add by lia. lia.
      * replace (n - (i + k))%nat with 0%nat by lia.
        rewrite (Nat.div_small (0 + (k - 1))) by lia.
        apply (Nat.div_unique _ _ 1 (n - i - 1)); lia.
    + apply Nat.ltb_ge in Hlt.
      replace (n - i)%nat with 0%nat by lia.
      rewrite Nat.div_small by lia. reflexivity.
Qed.

(** The searches of [discoverPOIsNearRoute]: every search is issued for
    a coordinate of the route, the first one for the first coordinate;
    a route of at most 5 coordinates is searched at every coordinate; a
    longer route is searched at 5 to 9 of its coordinates, whatever its
    length. *)
Theorem searches_per_route (coordinates : list (float * float)) :
  let n := List.length coordinates in
  Forall (fun i => (i < n)%nat) (samples coordinates)
  /\ ((0 < n)%nat -> hd_error (samples coordinates) = Some 0%nat)
  /\ ((n <= 5)%nat -> samples coordinates = seq 0 n)
  /\ ((5 <= n)%nat -> (5 <= List.length (samples coordinates) <= 9)%nat).
Proof.
  intros n. unfold samples. fold n. split; [|split; [|split]].
  - apply Forall_forall. intros x Hx. apply (sampleIndices_below _ _ _ _ _ Hx).
  - intros Hn. destruct n as [|n']; [lia|]. reflexivity.
  - intros Hn. unfold searchInterval. fold n.
    assert (Hk : Nat.max 1 (n / 5) = 1%nat).
    { destruct (Nat.eq_dec n 5) as [->|Hne]; [reflexivity|].
      rewrite Nat.div_small by lia. reflexivity. }
    rewrite Hk, sampleIndices_all by lia. rewrite Nat.sub_0_r. reflexivity.
  - intros Hn. unfold searchInterval. fold n.
    assert (Hq : (1 <= n / 5)%nat)
      by (apply Nat.div_le_lower_bound; lia).
    rewrite Nat.max_r by exact Hq.
    rewrite sampleIndices_length by lia. rewrite Nat.sub_0_r.
    pose proof (Nat.div_mod_eq n 5) as Hdiv.
    pose proof (Nat.mod_upper_bound n 5 ltac:(lia)) as Hmod.
    split.
    + apply Nat.div_le_lower_bound; lia.
    + apply Nat.lt_succ_r. apply Nat.Div0.div_lt_upper_bound; lia.
Qed.

Lemma merge_incl (poi : POI) (l : list POI) :
  forall acc : list POI,
    In poi (fold_left addPOI l acc) -> In poi acc \/ In poi l.
Proof.
  induction l as [|c l IH]; intros acc Hin; cbn [fold_left] in Hin.
  - left. exact Hin.
  - apply IH in Hin. destruct Hin as [Hin|Hin]; [|right; right; exact Hin].
    unfold addPOI in Hin.
    destruct (find (sameId (google_place_id c)) acc); [left; exact Hin|].
    apply in_app_or in Hin. destruct Hin as [Hin|[<-|[]]].
    + left. exact Hin.
    + right. left. reflexivity.
Qed.

Lemma discovered_from_search (Math_log : float -> float)
    (nearbysearch : nat -> SearchOutcome) (apiKey : option string)
    (coordinates : list (float * float)) (poi : POI) :
  In poi (discoverPOIsNearRoute Math_log nearbysearch apiKey coordinates) ->
  In poi (candidatesAt Math_log nearbysearch (route_coordinate_index poi))
  /\ In (route_coordinate_index poi) (samples coordinates)
  /\ (route_coordinate_index poi < List.length coordinates)%nat.
Proof.
  unfold discoverPOIsNearRoute. intros Hin.
  destruct apiKey; [|destruct Hin].
  apply firstn_incl in Hin.
  apply (Permutation_in _ (sortByScore_perm _)) in Hin.
  rewrite merged_candidates in Hin.
  apply merge_incl in Hin. destruct Hin as [[]|Hin].
  unfold candidates in Hin. apply in_flat_map in Hin.
  destruct Hin as (i & Hi & Hpoi).
  rewrite (candidatesAt_index _ _ _ _ Hpoi).
  split; [exact Hpoi|]. split; [exact Hi|].
  apply (sampleIndices_below _ _ _ _ _ Hi).
Qed.

Lemma discovered_length (Math_log : float -> float)
    (nearbysearch : nat -> SearchOutcome) (apiKey : option string)
    (coordinates : list (float * float)) :
  (List.length
     (discoverPOIsNearRoute Math_log nearbysearch apiKey coordinates)
   <= 8)%nat.
Proof.
  unfold discoverPOIsNearRoute.
  destruct apiKey; [|cbn; lia]. apply firstn_le_length.
Qed.

(** What [discoverPOIsNearRoute] returns: at most 8 POIs, no two with
    the same place identifier, each built from a result of a search at
    a coordinate of the route, whose index it carries; all the
    discovered POIs when they are at most 8; and nothing when no key is
    configured, when the route has no coordinate or when every search
    fails. *)
Theorem discovered_pois (Math_log : float -> float)
    (nearbysearch : nat -> SearchOutcome) (apiKey : option string)
    (coordinates : list (float * float)) :
  let result :=
    discoverPOIsNearRoute Math_log nearbysearch apiKey coordinates in
  (List.length result <= 8)%nat
  /\ NoDup (map google_place_id result)
  /\ (forall poi,
        In poi result ->
        In poi (candidatesAt Math_log nearbysearch
                  (route_coordinate_index poi))
        /\ In (route_coordinate_index poi) (samples coordinates)
        /\ (route_coordinate_index poi < List.length coordinates)%nat)
  /\ (apiKey <> None ->
      (List.length (discoveredPOIs Math_log nearbysearch coordinates) <= 8)%nat ->
      Permutation result (discoveredPOIs Math_log nearbysearch coordinates))
  /\ (apiKey = None \/ coordinates = []
      \/ (forall i, nearbysearch i = SearchFailed) ->
      result = []).
Proof.
  intros result. unfold result.
  split; [|split; [|split; [|split]]].
  - apply discovered_length.
  - unfold discoverPOIsNearRoute. destruct apiKey; [|constructor].
    apply firstn_NoDup_ids.
    assert (Hperm : Permutation
                      (map google_place_id
                         (sortByScore
                            (discoveredPOIs Math_log nearbysearch coordinates)))
                      (map google_place_id
                         (discoveredPOIs Math_log nearbysearch coordinates)))
      by (apply Permutation_map, sortByScore_perm).
    apply (Permutation_NoDup (Permutation_sym Hperm)).
    apply merged_NoDup.
  - intros poi Hin. apply (discovered_from_search _ _ _ _ _ Hin).
  - unfold discoverPOIsNearRoute.
    intros Hkey Hfew. destruct apiKey; [|congruence].
    rewrite firstn_all2.
    + apply sortByScore_perm.
    + rewrite (Permutation_length (sortByScore_perm _)). exact Hfew.
  - unfold discoverPOIsNearRoute.
    intros [->|[->|Hfail]]; [reflexivity| |].
    + destruct apiKey; reflexivity.
    + destruct apiKey; [|reflexivity].
      assert (Hnone : discoveredPOIs Math_log nearbysearch coordinates = []).
      { unfold discoveredPOIs. generalize (samples coordinates) as l.
        induction l as [|i l IH]; [reflexivity|].
        cbn [fold_left]. unfold sampleStep at 2. rewrite Hfail. exact IH. }
      rewrite Hnone. reflexivity.
Qed.

End DiscoveryProofs.

(** ** The route calculation: when it succeeds, and with what *)

Module ScenicRouteProofs.
Import PathCodec PathCodecProofs Selector.

Local Open Scope string_scope.

(** [calculateScenicRoute] succeeds exactly when the key is configured,
    the directions request answers with the status OK and its first
    route has a leg; the decoder never makes it fail.  The route then
    is the first route of the answer: its coordinates are the decoded
    overview polyline, its distance, duration and instructions those of
    the first leg alone.  The preferences change nothing. *)
Theorem scenic_route_outcome (Step Instruction : Type)
    (convert : list Step -> list Instruction) (apiKey : option string)
    (directions : float * float -> float * float -> DirectionsOutcome Step)
    (startCoords endCoords : float * float) (preferences : Preferences) :
  match calculateScenicRoute Step Instruction convert apiKey directions
          startCoords endCoords preferences with
  | RouteSuccess _ route =>
      exists data baselineRoute others leg legs',
        apiKey <> None
        /\ directions startCoords endCoords = DirectionsAnswer Step data
        /\ directions_status Step data = "OK"
        /\ routes Step data = baselineRoute :: others
        /\ legs Step baselineRoute = leg :: legs'
        /\ decodePolyline (overview_polyline_points Step baselineRoute)
           = Some (coordinates Instruction route)
        /\ route_path Instruction route
           = overview_polyline_points Step baselineRoute
        /\ total_distance_meters Instruction route = distance_value Step leg
        /\ estimated_time_seconds Instruction route = duration_value Step leg
        /\ instructions Instruction route = convert (steps Step leg)
  | RouteFailure _ error =>
      apiKey = None
      \/ directions startCoords endCoords = DirectionsThrows Step
      \/ exists data,
           directions startCoords endCoords = DirectionsAnswer Step data
           /\ (directions_status Step data <> "OK"
               \/ routes Step data = []
               \/ exists baselineRoute others,
                    routes Step data = baselineRoute :: others
                    /\ legs Step baselineRoute = [])
  end
  /\ forall preferences',
       calculateScenicRoute Step Instruction convert apiKey directions
         startCoords endCoords preferences'
       = calculateScenicRoute Step Instruction convert apiKey directions
           startCoords endCoords preferences.
Proof.
  split; [|reflexivity].
  unfold calculateScenicRoute.
  destruct apiKey as [key|]; [|left; reflexivity].
  destruct (directions startCoords endCoords) as [|data] eqn:Hdir;
    [right; left; reflexivity|].
  destruct (String.eqb (directions_status Step data) "OK") eqn:Hstatus;
    cbn [negb orb].
  - apply String.eqb_eq in Hstatus.
    destruct (routes Step data) as [|baselineRoute others] eqn:Hroutes;
      cbn [List.length Nat.eqb].
    + right. right. exists data. split; [reflexivity|]. right. left.
      exact Hroutes.
    + destruct (legs Step baselineRoute) as [|leg legs'] eqn:Hlegs.
      * right. right. exists data. split; [reflexivity|]. right. right.
        exists baselineRoute, others. split; [exact Hroutes | exact Hlegs].
      * destruct (decodeLoop_returns
                    (S (List.length
                          (overview_polyline_points Step baselineRoute)))
                    (overview_polyline_points Step baselineRoute) 0 0 0 [])
          as (path & Hpath & _); try lia.
        fold (decodePolyline (overview_polyline_points Step baselineRoute))
          in Hpath.
        rewrite Hpath.
        exists data, baselineRoute, others, leg, legs'.
        cbn [coordinates route_path total_distance_meters
             estimated_time_seconds instructions].
        repeat split; try assumption; try reflexivity. discriminate.
  - apply String.eqb_neq in Hstatus.
    right. right. exists data. split; [reflexivity|]. left. exact Hstatus.
Qed.

End ScenicRouteProofs.

(** ** The handler: the row and the response *)

Module HandlerProofs.
Import Scorer Aggregator Selector Progress Examples.
Import AggregatorProofs SelectorProofs DiscoveryProofs.

Local Open Scope string_scope.

Ltac updates w :=
  destruct (updateApplied _ w 0), (updateApplied _ w 1),
    (updateApplied _ w 2);
  cbn [updateRoute applyUpdate new_status new_progress status
       generation_progress].

(** Every state the row takes is one of the five the handler writes. *)
Lemma handler_states (Math_log : float -> float)
    (Step Instruction : Type) (convert : list Step -> list Instruction)
    (w : World Step) (method : string) (requestData : RouteRequest) :
  Forall (fun s => In s RouteStatus.writtenStates)
    (snd (generateRoute Math_log Step Instruction convert w method
            requestData)).
Proof.
  unfold generateRoute.
  destruct (negb (String.eqb method "POST")); [constructor|].
  destruct (start_location requestData) as [start_loc|]; [|constructor].
  destruct (end_location requestData) as [end_loc|]; [|constructor].
  destruct (getCoordinates (geocode Step w) start_loc) as [startCoords|];
    [|constructor].
  destruct (getCoordinates (geocode Step w) end_loc) as [endCoords|];
    [|constructor].
  unfold insertRoute.
  destruct (insertError Step w); [constructor|].
  destruct (calculateScenicRoute _ _ _ _ _ _ _ _) as [error|routeData];
    cbn [fst snd].
  - destruct (updateApplied Step w 0);
      cbn [updateRoute applyUpdate new_status new_progress status
           generation_progress];
      repeat (apply Forall_cons; [unfold RouteStatus.writtenStates, In; auto 10|]);
      apply Forall_nil.
  - updates w;
      repeat (apply Forall_cons; [unfold RouteStatus.writtenStates, In; auto 10|]);
      apply Forall_nil.
Qed.


(** The response does not depend on the writes of the progress.  When
    the handler answers with a route, the row is (completed, 100) if
    the last update reached it, and it is still [processing] if that
    update was lost: the client has its route, and the status endpoint
    keeps reporting the generation as running. *)
Theorem route_response_and_row (Math_log : float -> float)
    (Step Instruction : Type) (convert : list Step -> list Instruction)
    (w : World Step) (method : string) (requestData : RouteRequest)
    (route : ScenicRoute Instruction) (stories : list POI) :
  let run := generateRoute Math_log Step Instruction convert w method
               requestData in
  fst run = RouteResponse Instruction route stories ->
  exists latest,
    hd_error (snd run) = Some latest
    /\ (updateApplied Step w 2 = true ->
        latest = {| status := completed; generation_progress := 100 |})
    /\ (updateApplied Step w 2 = false ->
        status latest = processing
        /\ In (generation_progress latest) [10; 40; 70]).
Proof.
  unfold generateRoute.
  destruct (negb (String.eqb method "POST")); [discriminate|].
  destruct (start_location requestData) as [start_loc|]; [|discriminate].
  destruct (end_location requestData) as [end_loc|]; [|discriminate].
  destruct (getCoordinates (geocode Step w) start_loc) as [startCoords|];
    [|discriminate].
  destruct (getCoordinates (geocode Step w) end_loc) as [endCoords|];
    [|discriminate].
  unfold insertRoute.
  destruct (insertError Step w); [discriminate|].
  destruct (calculateScenicRoute _ _ _ _ _ _ _ _) as [error|routeData];
    cbn [fst snd]; [discriminate|].
  intros _.
  updates w; eexists; (split; [reflexivity|]);
    (split; [intros H; try discriminate H; reflexivity|]);
    intros H; try discriminate H; cbn; tauto.
Qed.

Lemma route_response_and_row_witness :
  exists latest,
    hd_error (snd (generateRoute log_table unit unit (fun steps => steps)
                     lostUpdatesWorld "POST" exampleRequest))
    = Some latest
    /\ (updateApplied unit lostUpdatesWorld 2 = true ->
        latest = {| status := completed; generation_progress := 100 |})
    /\ (updateApplied unit lostUpdatesWorld 2 = false ->
        status latest = processing
        /\ In (generation_progress latest) [10; 40; 70]).
Proof.
  eapply (route_response_and_row log_table unit unit (fun steps => steps)
            lostUpdatesWorld "POST" exampleRequest).
  vm_compute. reflexivity.
Defined.

(** What a route response carries.  The route calculation succeeded,
    so the key of the maps service is configured and the discovery of
    POIs never runs without a key; the stories are those of the POIs
    discovered along the coordinates of the returned route whose story
    was stored, at most 8; and the route is the baseline route, with no
    waypoint and a time increase of 0. *)
Theorem route_response_content (Math_log : float -> float)
    (Step Instruction : Type) (convert : list Step -> list Instruction)
    (w : World Step) (method : string) (requestData : RouteRequest)
    (route : ScenicRoute Instruction) (stories : list POI) :
  fst (generateRoute Math_log Step Instruction convert w method requestData)
  = RouteResponse Instruction route stories ->
  method = "POST"
  /\ insertError Step w = false
  /\ (exists key,
        (placesApiKey Step w = Some key
         \/ placesApiKey Step w = None /\ mapsApiKey Step w = Some key)
        /\ stories
           = filter (storyStored Step w)
               (discoverPOIsNearRoute Math_log (nearbysearch Step w)
                  (Some key) (coordinates Instruction route)))
  /\ (List.length stories <= 8)%nat
  /\ waypoints Instruction route = []
  /\ time_increase_percent Instruction route = 0
  /\ estimated_time_seconds Instruction route
     = baseline_time_seconds Instruction route.
Proof.
  unfold generateRoute.
  destruct (negb (String.eqb method "POST")) eqn:Hmethod; [discriminate|].
  apply negb_false_iff, String.eqb_eq in Hmethod.
  destruct (start_location requestData) as [start_loc|]; [|discriminate].
  destruct (end_location requestData) as [end_loc|]; [|discriminate].
  destruct (getCoordinates (geocode Step w) start_loc) as [startCoords|];
    [|discriminate].
  destruct (getCoordinates (geocode Step w) end_loc) as [endCoords|];
    [|discriminate].
  unfold insertRoute.
  destruct (insertError Step w); [discriminate|].
  destruct (calculateScenicRoute _ _ _ _ _ _ _ _) as [error|routeData]
    eqn:Hcalc; cbn [fst]; [discriminate|].
  intros Hresponse. injection Hresponse as <- <-.
  destruct (scenic_route_is_baseline _ _ _ _ _ _ _ _ _ Hcalc)
    as (Htime & Hincrease & Hway).
  assert (Hkey : exists k, mapsApiKey Step w = Some k).
  { unfold calculateScenicRoute in Hcalc.
    destruct (mapsApiKey Step w) as [k|]; [exists k; reflexivity|].
    discriminate Hcalc. }
  destruct Hkey as [k Hk].
  split; [exact Hmethod|]. split; [reflexivity|]. split; [|split].
  - destruct (placesApiKey Step w) as [pk|].
    + exists pk. split; [left; reflexivity | reflexivity].
    + exists k. split; [right; split; [reflexivity | exact Hk]|].
      rewrite Hk. reflexivity.
  - etransitivity; [apply filter_length_le | apply discovered_length].
  - repeat split; assumption.
Qed.

Lemma route_response_content_witness :
  exists route stories,
    fst (generateRoute log_table unit unit (fun steps => steps)
           lostUpdatesWorld "POST" exampleRequest)
    = RouteResponse unit route stories
    /\ "POST" = "POST"
    /\ insertError unit lostUpdatesWorld = false
    /\ (exists key,
          (placesApiKey unit lostUpdatesWorld = Some key
           \/ placesApiKey unit lostUpdatesWorld = None
              /\ mapsApiKey unit lostUpdatesWorld = Some key)
          /\ stories
             = filter (storyStored unit lostUpdatesWorld)
                 (discoverPOIsNearRoute log_table
                    (nearbysearch unit lostUpdatesWorld)
                    (Some key) (coordinates unit route)))
    /\ (List.length stories <= 8)%nat
    /\ waypoints unit route = []
    /\ time_increase_percent unit route = 0
    /\ estimated_time_seconds unit route = baseline_time_seconds unit route.
Proof.
  eexists _, _. split; [vm_compute; reflexivity|].
  apply (route_response_content log_table unit unit (fun steps => steps)
           lostUpdatesWorld "POST" exampleRequest).
  vm_compute. reflexivity.
Defined.

(** Without the key of the maps service the handler never answers with
    a route, whether the key of the places service is configured or
    not, and the row, if one was inserted, never gets beyond a progress
    of 10. *)
Theorem no_route_without_maps_key (Math_log : float -> float)
    (Step Instruction : Type) (convert : list Step -> list Instruction)
    (w : World Step) (method : string) (requestData : RouteRequest) :
  mapsApiKey Step w = None ->
  (exists httpStatus code,
     fst (generateRoute Math_log Step Instruction convert w method
            requestData)
     = ErrorResponse Instruction httpStatus code)
  /\ Forall (fun s => generation_progress s <= 10)
       (snd (generateRoute Math_log Step Instruction convert w method
               requestData)).
Proof.
  intros Hkey. unfold generateRoute.
  destruct (negb (String.eqb method "POST"));
    [split; [eexists _, _; reflexivity | constructor]|].
  destruct (start_location requestData) as [start_loc|];
    [|split; [eexists _, _; reflexivity | constructor]].
  destruct (end_location requestData) as [end_loc|];
    [|split; [eexists _, _; reflexivity | constructor]].
  destruct (getCoordinates (geocode Step w) start_loc) as [startCoords|];
    [|split; [eexists _, _; reflexivity | constructor]].
  destruct (getCoordinates (geocode Step w) end_loc) as [endCoords|];
    [|split; [eexists _, _; reflexivity | constructor]].
  unfold insertRoute.
  destruct (insertError Step w);
    [split; [eexists _, _; reflexivity | constructor]|].
  rewrite Hkey. cbn [calculateScenicRoute fst snd].
  split; [eexists _, _; reflexivity|].
  destruct (updateApplied Step w 0);
    cbn [updateRoute applyUpdate new_status new_progress status
         generation_progress];
    repeat (apply Forall_cons; [cbn; lia|]); apply Forall_nil.
Qed.

Lemma no_route_without_maps_key_witness :
  (exists httpStatus code,
     fst (generateRoute log_table unit unit (fun steps => steps)
            placesKeyWorld "POST" exampleRequest)
     = ErrorResponse unit httpStatus code)
  /\ Forall (fun s => generation_progress s <= 10)
       (snd (generateRoute log_table unit unit (fun steps => steps)
               placesKeyWorld "POST" exampleRequest)).
Proof.
  apply (no_route_without_maps_key log_table unit unit (fun steps => steps)
           placesKeyWorld "POST" exampleRequest).
  reflexivity.
Defined.

End HandlerProofs.

(** ** From the route to its stories *)

Module PipelineProofs.
Import Scorer Aggregator Stories DiscoveryProofs StoriesProofs.

(** The stories of a route, [generateStoriesForPOIs] applied to what
    [discoverPOIsNearRoute] returns: at most 8; each is triggered at a
    coordinate of the route where a search was issued, 30 seconds of
    trigger time per coordinate index, so less than 30 seconds times
    the number of coordinates; and none without a key. *)
Theorem stories_of_route (Math_log : float -> float)
    (nearbysearch : nat -> SearchOutcome) (apiKey : option string)
    (coordinates : list (float * float)) (randomUUID : nat -> string)
    (upsertPOI : POI -> option string) (insertStory : string -> Story -> bool) :
  let stories :=
    generateStoriesForPOIs randomUUID upsertPOI insertStory
      (discoverPOIsNearRoute Math_log nearbysearch apiKey coordinates) in
  (List.length stories <= 8)%nat
  /\ (forall story,
        In story stories ->
        In (story_coordinate_index story) (samples coordinates)
        /\ (story_coordinate_index story < List.length coordinates)%nat
        /\ estimated_trigger_time story
           = (30 * story_coordinate_index story)%nat
        /\ (estimated_trigger_time story < 30 * List.length coordinates)%nat)
  /\ (apiKey = None -> stories = []).
Proof.
  intros stories. split; [|split].
  - etransitivity; [apply generateStories_length | apply discovered_length].
  - intros story Hstory. apply generateStories_In in Hstory.
    destruct Hstory as (i & poi & poiRecord & Hnth & _ & _ & ->).
    apply nth_error_In in Hnth.
    destruct (discovered_from_search _ _ _ _ _ Hnth) as (_ & Hsample & Hlt).
    cbn [storyFor story_coordinate_index estimated_trigger_time].
    repeat split; try assumption; lia.
  - intros ->. reflexivity.
Qed.

End PipelineProofs.

(** ** The status endpoint *)

Module RouteStatusProofs.
Import Scorer Aggregator Selector Progress RouteStatus Examples FloatOrder.
Import HandlerProofs.

Local Open Scope string_scope.

Lemma progressValues_spec (p : Z) : 0 <= p <= 100 -> In p progressValues.
Proof.
  intros Hp. unfold progressValues. apply in_map_iff.
  exists (Z.to_nat p). split; [lia|]. apply in_seq. lia.
Qed.

(** The estimate, at every progress value and the next. *)
Lemma estimate_steps :
  forallb (fun p => (0 <=? estimatedCompletion p)%float
                    && (estimatedCompletion p <=? 30)%float
                    && (estimatedCompletion (p + 1)
                        <=? estimatedCompletion p)%float)
    progressValues = true.
Proof. vm_compute. reflexivity. Qed.

Lemma estimate_step (p : Z) :
  0 <= p <= 100 ->
  (0 <=? estimatedCompletion p)%float = true
  /\ (estimatedCompletion p <=? 30)%float = true
  /\ (estimatedCompletion (p + 1) <=? estimatedCompletion p)%float = true.
Proof.
  intros Hp. pose proof estimate_steps as Hall.
  rewrite forallb_forall in Hall.
  specialize (Hall p (progressValues_spec p Hp)).
  rewrite !andb_true_iff in Hall. tauto.
Qed.

(** The estimate of the remaining time of a processing route: for a
    progress within the column's range 0 to 100 it lies between 0 and
    30 seconds, and it does not increase as the progress grows. *)
Theorem estimate_decreases_with_progress (p q : Z) :
  0 <= p -> p <= q -> q <= 100 ->
  (0 <=? estimatedCompletion q)%float = true
  /\ (estimatedCompletion q <=? estimatedCompletion p)%float = true
  /\ (estimatedCompletion p <=? 30)%float = true.
Proof.
  intros Hp Hpq Hq.
  destruct (estimate_step p ltac:(lia)) as (Hlow & Hup & _).
  destruct (estimate_step q ltac:(lia)) as (Hlowq & _ & _).
  split; [exact Hlowq|]. split; [|exact Hup].
  replace q with (p + Z.of_nat (Z.to_nat (q - p))) in Hq |- * by lia.
  clear Hpq Hlowq. induction (Z.to_nat (q - p)) as [|d IH].
  - rewrite Z.add_0_r. apply leb_refl.
    apply (leb_not_nan _ _ Hup).
  - destruct (estimate_step (p + Z.of_nat d) ltac:(lia)) as (_ & _ & Hstep).
    replace (p + Z.of_nat (S d)) with (p + Z.of_nat d + 1) by lia.
    apply (leb_trans _ _ _ Hstep). apply IH. lia.
Qed.

Lemma estimate_decreases_with_progress_witness :
  (0 <=? estimatedCompletion 70)%float = true
  /\ (estimatedCompletion 70 <=? estimatedCompletion 40)%float = true
  /\ (estimatedCompletion 40 <=? 30)%float = true.
Proof.
  apply (estimate_decreases_with_progress 40 70); lia.
Defined.

(** The answer of [getRouteStatus].  Without the row it is 404
    ROUTE_NOT_FOUND, whatever the stories query gives.  With the row it
    reports the row's status and progress; an estimate exactly for a
    processing route and an error message exactly for a failed one;
    never more stories with audio than stories; POIs discovered only
    if the route is calculated; and, when the stories query fails, zero
    stories rather than an error. *)
Theorem route_status_response (route : option GenerationState)
    (stories : option (list StoryRow)) (routeId : string) :
  match getRouteStatus route stories routeId with
  | ErrorResponse httpStatus code =>
      route = None /\ httpStatus = 404 /\ code = "ROUTE_NOT_FOUND"
  | StatusResponse body =>
      exists r,
        route = Some r
        /\ response_route_id body = routeId
        /\ response_status body = status r
        /\ response_progress body = generation_progress r
        /\ (estimated_completion_seconds body <> None
            <-> status r = processing)
        /\ (error_message body <> None <-> status r = failed)
        /\ (audio_generated (partial_results body)
            <= stories_generated (partial_results body))%nat
        /\ (pois_discovered (partial_results body) = true ->
            route_calculated (partial_results body) = true)
        /\ (stories = None ->
            stories_generated (partial_results body) = 0%nat
            /\ audio_generated (partial_results body) = 0%nat)
  end.
Proof.
  unfold getRouteStatus. destruct route as [r|]; [|repeat split].
  exists r.
  cbn [response_route_id response_status response_progress
       estimated_completion_seconds error_message partial_results
       audio_generated stories_generated pois_discovered route_calculated].
  repeat split; try (destruct (status r); congruence).
  - destruct stories as [l|]; [apply filter_length_le | lia].
  - rewrite !Z.leb_le. lia.
  - subst stories. reflexivity.
  - subst stories. reflexivity.
Qed.

(** The status endpoint on a row written by the handler of
    [generate-route], at any moment of the run: a failed route is
    reported with progress 0, nothing calculated and the error message;
    a completed one with progress 100 and both steps done; a
    processing one with progress 10, 40 or 70 and an estimate of 27, 18
    or 9 seconds. *)
Theorem status_of_handler_row (Math_log : float -> float)
    (Step Instruction : Type) (convert : list Step -> list Instruction)
    (w : World Step) (method : string) (requestData : RouteRequest)
    (s : GenerationState) (stories : option (list StoryRow))
    (routeId : string) :
  In s (snd (generateRoute Math_log Step Instruction convert w method
               requestData)) ->
  exists body,
    getRouteStatus (Some s) stories routeId = StatusResponse body
    /\ match response_status body with
       | failed =>
           response_progress body = 0
           /\ route_calculated (partial_results body) = false
           /\ pois_discovered (partial_results body) = false
           /\ estimated_completion_seconds body = None
           /\ error_message body = Some "Route generation failed"
       | completed =>
           response_progress body = 100
           /\ route_calculated (partial_results body) = true
           /\ pois_discovered (partial_results body) = true
           /\ estimated_completion_seconds body = None
           /\ error_message body = None
       | processing =>
           error_message body = None
           /\ In (response_progress body,
                  route_calculated (partial_results body),
                  pois_discovered (partial_results body),
                  estimated_completion_seconds body)
                [(10, false, false, Some 27%float);
                 (40, true, false, Some 18%float);
                 (70, true, true, Some 9%float)]
       end.
Proof.
  intros Hin.
  pose proof (handler_states Math_log Step Instruction convert w method
                requestData) as Hstates.
  rewrite Forall_forall in Hstates. apply Hstates in Hin.
  eexists. split; [reflexivity|].
  unfold writtenStates in Hin. cbn [In] in Hin.
  destruct Hin as [<-|[<-|[<-|[<-|[<-|[]]]]]];
    cbn [getRouteStatus response_status response_progress status
         generation_progress estimated_completion_seconds error_message
         partial_results route_calculated pois_discovered];
    repeat split; vm_compute; auto.
Qed.

Lemma status_of_handler_row_witness :
  exists body,
    getRouteStatus (Some {| status := failed; generation_progress := 0 |})
      None "route-1"
    = StatusResponse body
    /\ match response_status body with
       | failed =>
           response_progress body = 0
           /\ route_calculated (partial_results body) = false
           /\ pois_discovered (partial_results body) = false
           /\ estimated_completion_seconds body = None
           /\ error_message body = Some "Route generation failed"
       | completed =>
           response_progress body = 100
           /\ route_calculated (partial_results body) = true
           /\ pois_discovered (partial_results body) = true
           /\ estimated_completion_seconds body = None
           /\ error_message body = None
       | processing =>
           error_message body = None
           /\ In (response_progress body,
                  route_calculated (partial_results body),
                  pois_discovered (partial_results body),
                  estimated_completion_seconds body)
                [(10, false, false, Some 27%float);
                 (40, true, false, Some 18%float);
                 (70, true, true, Some 9%float)]
       end.
Proof.
  apply (status_of_handler_row log_table unit unit (fun steps => steps)
           noRouteWorld "POST" exampleRequest).
  vm_compute. left. reflexivity.
Defined.

End RouteStatusProofs.

(** ** The API's validation and the generator *)

Module ApiProofs.
Import Scorer Aggregator Selector Progress Api Examples FloatOrder.

Local Open Scope string_scope.

(** On numbers the range test of [validateRouteRequest] is the one of
    [getCoordinates]. *)
Lemma inRange_valid (c : float * float) :
  is_nan (fst c) = false -> is_nan (snd c) = false ->
  validCoordinates c = Api.inRange c.
Proof.
  destruct c as [lat lng]. cbn [fst snd]. intros Hlat Hlng.
  unfold validCoordinates, Api.inRange.
  rewrite (leb_negb_ltb (-90) lat), (leb_negb_ltb lat 90),
    (leb_negb_ltb (-180) lng), (leb_negb_ltb lng 180)
    by (assumption || reflexivity).
  destruct (lat <? -90)%float, (90 <? lat)%float, (lng <? -180)%float,
    (180 <? lng)%float; reflexivity.
Qed.

(** The two range tests on coordinates, [getCoordinates] of the
    generator and [validateRouteRequest] of the API, accept the same
    numbers; they differ on [NaN] only, which [validateRouteRequest]
    lets through and [getCoordinates] refuses. *)
Theorem range_tests_agree (lat lng : float) :
  validCoordinates (lat, lng)
  = Api.inRange (lat, lng) && negb (is_nan lat) && negb (is_nan lng)
  /\ (is_nan lat = true -> is_nan lng = true ->
      Api.inRange (lat, lng) = true).
Proof.
  split.
  - destruct (is_nan lat) eqn:Hlat.
    + unfold validCoordinates. rewrite (leb_nan_r _ _ Hlat).
      cbn [andb negb]. rewrite andb_false_r. reflexivity.
    + destruct (is_nan lng) eqn:Hlng.
      * unfold validCoordinates. rewrite (leb_nan_r (-180) _ Hlng).
        cbn [andb negb]. rewrite !andb_false_r. reflexivity.
      * cbn [negb]. rewrite !andb_true_r. apply inRange_valid; assumption.
  - intros Hlat Hlng. unfold Api.inRange.
    rewrite (ltb_nan_l _ _ Hlat), (ltb_nan_r _ _ Hlat),
      (ltb_nan_l _ _ Hlng), (ltb_nan_r _ _ Hlng). reflexivity.
Qed.

Lemma valid_getCoordinates (geocode : string -> option (float * float))
    (location : Location) (c : float * float) :
  location_coordinates location = Some c ->
  hasNumbers location = true -> Api.inRange c = true ->
  getCoordinates geocode location = Some c.
Proof.
  unfold hasNumbers, getCoordinates. intros -> Hnum Hrange.
  destruct c as [lat lng]. apply andb_true_iff in Hnum.
  destruct Hnum as [Hlat Hlng]. apply negb_true_iff in Hlat, Hlng.
  rewrite (inRange_valid (lat, lng) Hlat Hlng), Hrange. reflexivity.
Qed.

(** A request the API accepts and that gives both locations by
    coordinates is never refused by the generator it is forwarded to:
    [getCoordinates] returns the coordinates as they are, without
    geocoding, and the generator answers neither 405 nor 400. *)
Theorem accepted_request_is_generated (Math_log : float -> float)
    (Step Instruction : Type) (convert : list Step -> list Instruction)
    (w : World Step) (requestData : RouteRequest)
    (start_loc end_loc : Location) :
  validateRouteRequest requestData = Valid ->
  start_location requestData = Some start_loc ->
  end_location requestData = Some end_loc ->
  hasNumbers start_loc = true -> hasNumbers end_loc = true ->
  getCoordinates (geocode Step w) start_loc = location_coordinates start_loc
  /\ getCoordinates (geocode Step w) end_loc = location_coordinates end_loc
  /\ match fst (generateRoute Math_log Step Instruction convert w "POST"
                  requestData) with
     | Progress.ErrorResponse _ httpStatus code =>
         httpStatus = 500
         /\ (code = "DATABASE_ERROR" \/ code = "ROUTE_GENERATION_FAILED")
     | Progress.RouteResponse _ _ _ => True
     end.
Proof.
  intros Hvalid Hstart Hend Hs He.
  unfold validateRouteRequest in Hvalid. rewrite Hstart, Hend in Hvalid.
  destruct (negb (hasData start_loc) || negb (hasData end_loc));
    [discriminate Hvalid|].
  destruct (location_coordinates start_loc) as [cs|] eqn:Hcs;
    [|unfold hasNumbers in Hs; rewrite Hcs in Hs; discriminate Hs].
  destruct (negb (Api.inRange cs)) eqn:Hrs; [discriminate Hvalid|].
  destruct (location_coordinates end_loc) as [ce|] eqn:Hce;
    [|unfold hasNumbers in He; rewrite Hce in He; discriminate He].
  destruct (negb (Api.inRange ce)) eqn:Hre; [discriminate Hvalid|].
  apply negb_false_iff in Hrs, Hre.
  pose proof (valid_getCoordinates (geocode Step w) _ _ Hcs Hs Hrs) as Hgs.
  pose proof (valid_getCoordinates (geocode Step w) _ _ Hce He Hre) as Hge.
  split; [exact Hgs|]. split; [exact Hge|].
  unfold generateRoute. cbn [String.eqb Ascii.eqb Bool.eqb negb andb].
  rewrite Hstart, Hend, Hgs, Hge. unfold insertRoute.
  destruct (insertError Step w); [cbn; auto|].
  destruct (calculateScenicRoute _ _ _ _ _ _ _ _); cbn; auto.
Qed.

Lemma accepted_request_is_generated_witness :
  getCoordinates (geocode unit noRouteWorld)
    {| address := None;
       location_coordinates := Some (37.4419, -122.1430)%float |}
  = Some (37.4419, -122.1430)%float
  /\ getCoordinates (geocode unit noRouteWorld)
       {| address := None;
          location_coordinates := Some (37.3688, -122.0363)%float |}
     = Some (37.3688, -122.0363)%float
  /\ match fst (generateRoute log_table unit unit (fun steps => steps)
                  noRouteWorld "POST" exampleRequest) with
     | Progress.ErrorResponse _ httpStatus code =>
         httpStatus = 500
         /\ (code = "DATABASE_ERROR" \/ code = "ROUTE_GENERATION_FAILED")
     | Progress.RouteResponse _ _ _ => True
     end.
Proof.
  apply (accepted_request_is_generated log_table unit unit
           (fun steps => steps) noRouteWorld exampleRequest
           {| address := None;
              location_coordinates := Some (37.4419, -122.1430)%float |}
           {| address := None;
              location_coordinates := Some (37.3688, -122.0363)%float |});
    vm_compute; reflexivity.
Defined.

End ApiProofs.

(** ** The on-route test: refusals and fallbacks *)

Module ValidationCases.
Import Validation Examples.

Local Open Scope string_scope.


(** When [calculate_distance_to_route] gives no row (the repository
    defines no such function), the answer reports a distance of 0 and
    the location itself as the nearest point, whether the location is
    on the route or not; [on_route] does not depend on that call. *)
Theorem distance_fallback (LineString : Type)
    (ST_Distance : float * float -> LineString -> float)
    (w : World LineString) (id : string) (lat lng : float)
    (path : LineString) (body : LocationValidationResponse) :
  validateLocationOnRoute LineString ST_Distance w
    {| route_id := Some id;
       current_location :=
         Some {| latitude := Some lat; longitude := Some lng |} |}
  = ValidationResponse body ->
  routes LineString w id = Some path ->
  calculate_distance_to_route LineString w (lng, lat) path = None ->
  distance_from_route_meters body = 0%float
  /\ nearest_point body = (lat, lng)
  /\ on_route body = (ST_Distance (lng, lat) path <=? 200)%float.
Proof.
  unfold validateLocationOnRoute.
  cbn [route_id current_location latitude longitude].
  intros Hcall Hroute Hnone.
  destruct (String.eqb id ""); [discriminate Hcall|].
  destruct (negb (validRange lat lng)); [discriminate Hcall|].
  rewrite Hroute in Hcall.
  destruct (validationError LineString w); [discriminate Hcall|].
  rewrite Hnone in Hcall. injection Hcall as <-.
  cbn [distance_from_route_meters nearest_point on_route or_else].
  repeat split.
Qed.

Lemma distance_fallback_witness :
  distance_from_route_meters
    {| on_route := false; distance_from_route_meters := 0;
       nearest_point := (37.4419, -122.1430)%float |} = 0%float
  /\ nearest_point
       {| on_route := false; distance_from_route_meters := 0;
          nearest_point := (37.4419, -122.1430)%float |}
     = (37.4419, -122.1430)%float
  /\ on_route
       {| on_route := false; distance_from_route_meters := 0;
          nearest_point := (37.4419, -122.1430)%float |}
     = (farDistance (-122.1430, 37.4419)%float tt <=? 200)%float.
Proof.
  apply (distance_fallback examplePath farDistance silentWorld "route-1"
           37.4419 (-122.1430) tt); reflexivity.
Defined.

End ValidationCases.

(** ** The score of a place without reviews *)

Module ScoreOrderProofs.
Import Scorer ScoreTables ScorerProofs FloatOrder.

Local Open Scope string_scope.
Local Open Scope float_scope.

Lemma typeScore_table (poiType : string) :
  In (typeScore poiType) typeScores.
Proof.
  unfold typeScore, typeScores.
  repeat match goal with
         | |- context [String.eqb ?a ?b] => destruct (String.eqb a b)
         end; cbn [In]; auto 10.
Qed.

Lemma distanceScore_table (distance : float) :
  In (distanceScore distance) distanceScores.
Proof.
  unfold distanceScore, distanceScores.
  destruct (distance <=? 500); [cbn [In]; auto|].
  destruct (distance <=? 1000); [cbn [In]; auto|].
  destruct (distance <=? 2000); cbn [In]; auto.
Qed.

(** A greater distance gives a distance score of the table that is not
    greater. *)
Lemma distanceScore_pairs (closer farther : float) :
  (closer <=? farther) = true ->
  In (distanceScore farther, distanceScore closer) distancePairs.
Proof.
  intros Hle. unfold distanceScore, distancePairs.
  destruct (farther <=? 500) eqn:H5.
  { rewrite (leb_trans _ _ _ Hle H5). cbn [In]. auto. }
  destruct (farther <=? 1000) eqn:H10.
  { destruct (closer <=? 500); [cbn [In]; auto 10|].
    rewrite (leb_trans _ _ _ Hle H10). cbn [In]. auto 10. }
  destruct (farther <=? 2000) eqn:H20.
  { destruct (closer <=? 500); [cbn [In]; auto 10|].
    destruct (closer <=? 1000); [cbn [In]; auto 10|].
    rewrite (leb_trans _ _ _ Hle H20). cbn [In]. auto 10. }
  destruct (closer <=? 500); [cbn [In]; auto 10|].
  destruct (closer <=? 1000); [cbn [In]; auto 10|].
  destruct (closer <=? 2000); cbn [In]; auto 20.
Qed.

Lemma score_without_reviews (Math_log : float -> float)
    (googleRating : float) (poiType : string) (distance : float) :
  calculatePOIScore Math_log googleRating 0 poiType distance
  = scoreWithoutReviews googleRating (typeScore poiType)
      (distanceScore distance).
Proof. reflexivity. Qed.

(** Over the tables: the bounds, and the step from a rating to the next. *)
Lemma rating_steps :
  forallb (fun t =>
     forallb (fun d =>
        forallb (fun n =>
           (22 <=? scoreWithoutReviews (tenths n) t d)
           && (scoreWithoutReviews (tenths n) t d <=? 68)
           && (scoreWithoutReviews (tenths n) t d
               <=? scoreWithoutReviews (tenths (n + 1)) t d))
          (map Z.of_nat (seq 0 50))
        && (scoreWithoutReviews (tenths 50) t d <=? 68))
       distanceScores)
    typeScores = true.
Proof. vm_compute. reflexivity. Qed.

Lemma distance_steps :
  forallb (fun t =>
     forallb (fun dd =>
        forallb (fun n =>
           scoreWithoutReviews (tenths n) t (fst dd)
           <=? scoreWithoutReviews (tenths n) t (snd dd))
          rating_tenths)
       distancePairs)
    typeScores = true.
Proof. vm_compute. reflexivity. Qed.

Lemma rating_step (t d : float) (n : Z) :
  In t typeScores -> In d distanceScores -> (0 <= n <= 50)%Z ->
  (22 <=? scoreWithoutReviews (tenths n) t d) = true
  /\ (scoreWithoutReviews (tenths n) t d <=? 68) = true
  /\ ((n < 50)%Z ->
      (scoreWithoutReviews (tenths n) t d
       <=? scoreWithoutReviews (tenths (n + 1)) t d) = true).
Proof.
  intros Ht Hd Hn. pose proof rating_steps as Hall.
  rewrite forallb_forall in Hall. specialize (Hall t Ht).
  rewrite forallb_forall in Hall. specialize (Hall d Hd).
  apply andb_true_iff in Hall. destruct Hall as [Hall Hlast].
  rewrite forallb_forall in Hall.
  assert (Hcase : (n = 50 \/ 0 <= n < 50)%Z) by lia.
  destruct Hcase as [->|Hlt].
  - specialize (Hall 49%Z). rewrite !andb_true_iff in Hall.
    destruct Hall as [[Hlow _] Hstep].
    { apply in_map_iff. exists 49%nat. split; [reflexivity|].
      apply in_seq. lia. }
    change (49 + 1)%Z with 50%Z in Hstep.
    split; [exact (leb_trans _ _ _ Hlow Hstep)|].
    split; [exact Hlast | lia].
  - specialize (Hall n). rewrite !andb_true_iff in Hall.
    destruct Hall as [[Hlow Hup] Hstep].
    { apply in_map_iff. exists (Z.to_nat n). split; [lia|].
      apply in_seq. lia. }
    auto.
Qed.

(** [calculatePOIScore] on places without reviews, rated [n] and [m]
    tenths, of any type and at any distance: the score is at least 22
    and at most 68, and the higher rating does not give the lower
    score. *)
Theorem score_grows_with_rating (Math_log : float -> float) (n m : Z)
    (poiType : string) (distance : float) :
  (0 <= n)%Z -> (n <= m)%Z -> (m <= 50)%Z ->
  (22 <=? calculatePOIScore Math_log (tenths n) 0 poiType distance) = true
  /\ (calculatePOIScore Math_log (tenths n) 0 poiType distance
      <=? calculatePOIScore Math_log (tenths m) 0 poiType distance) = true
  /\ (calculatePOIScore Math_log (tenths m) 0 poiType distance <=? 68) = true.
Proof.
  intros Hn Hnm Hm. rewrite !score_without_reviews.
  pose proof (typeScore_table poiType) as Ht.
  pose proof (distanceScore_table distance) as Hd.
  destruct (rating_step _ _ n Ht Hd ltac:(lia)) as (Hlow & Hupn & _).
  destruct (rating_step _ _ m Ht Hd ltac:(lia)) as (_ & Hup & _).
  split; [exact Hlow|]. split; [|exact Hup].
  replace m with (n + Z.of_nat (Z.to_nat (m - n)))%Z in Hm |- * by lia.
  clear Hnm Hup. induction (Z.to_nat (m - n)) as [|k IH].
  - rewrite Z.add_0_r. apply leb_refl. apply (leb_not_nan _ _ Hupn).
  - destruct (rating_step _ _ (n + Z.of_nat k) Ht Hd ltac:(lia))
      as (_ & _ & Hstep).
    replace (n + Z.of_nat (S k))%Z with (n + Z.of_nat k + 1)%Z by lia.
    apply (leb_trans _ (scoreWithoutReviews (tenths (n + Z.of_nat k))
                          (typeScore poiType) (distanceScore distance))).
    + apply IH. lia.
    + apply Hstep. lia.
Qed.

Lemma score_grows_with_rating_witness :
  (22 <=? calculatePOIScore log_table (tenths 25) 0 "museum" 750) = true
  /\ (calculatePOIScore log_table (tenths 25) 0 "museum" 750
      <=? calculatePOIScore log_table (tenths 45) 0 "museum" 750) = true
  /\ (calculatePOIScore log_table (tenths 45) 0 "museum" 750 <=? 68) = true.
Proof.
  apply (score_grows_with_rating log_table 25 45 "museum" 750); lia.
Defined.

(** Closer is better: of two places without reviews, of the same type
    and rating (in tenths), the one closer to the route does not get
    the lower score from [calculatePOIScore]; and the distance
    component of the stored routine [calculate_poi_score] does not
    decrease either. *)
Theorem closer_is_better (Math_log : float -> float) (n : Z)
    (poiType : string) (closer farther : float) :
  (0 <= n <= 50)%Z -> (closer <=? farther) = true ->
  (calculatePOIScore Math_log (tenths n) 0 poiType farther
   <=? calculatePOIScore Math_log (tenths n) 0 poiType closer) = true
  /\ (distance_score farther <= distance_score closer)%Q.
Proof.
  intros Hn Hle. split.
  - rewrite !score_without_reviews.
    pose proof distance_steps as Hall.
    rewrite forallb_forall in Hall.
    specialize (Hall _ (typeScore_table poiType)).
    rewrite forallb_forall in Hall.
    specialize (Hall _ (distanceScore_pairs _ _ Hle)).
    rewrite forallb_forall in Hall.
    apply (Hall n (rating_tenths_spec n Hn)).
  - unfold distance_score.
    destruct (farther <=? 500) eqn:H5.
    { rewrite (leb_trans _ _ _ Hle H5). apply Qle_refl. }
    destruct (farther <=? 1000) eqn:H10.
    { destruct (closer <=? 500); [discriminate|].
      rewrite (leb_trans _ _ _ Hle H10). apply Qle_refl. }
    destruct (farther <=? 2000) eqn:H20.
    { destruct (closer <=? 500); [discriminate|].
      destruct (closer <=? 1000); [discriminate|].
      rewrite (leb_trans _ _ _ Hle H20). apply Qle_refl. }
    destruct (closer <=? 500); [discriminate|].
    destruct (closer <=? 1000); [discriminate|].
    destruct (closer <=? 2000); [discriminate | apply Qle_refl].
Qed.

Lemma closer_is_better_witness :
  (calculatePOIScore log_table (tenths 45) 0 "park" 1500
   <=? calculatePOIScore log_table (tenths 45) 0 "park" 300) = true
  /\ (distance_score 1500 <= distance_score 300)%Q.
Proof.
  apply (closer_is_better log_table 45 "park" 300 1500);
    [lia | reflexivity].
Defined.

End ScoreOrderProofs.

(** ** The stored routine [calculate_poi_score] *)

Module DatabaseScoreProofs.
Import Scorer.

Local Open Scope string_scope.

(** Rounding half away from zero, on fractions of integers, is monotone. *)
Lemma half_up_mono (p p' q q' : Z) :
  0 < q -> 0 < q' -> 0 <= p -> p * q' <= p' * q ->
  (2 * p + q) / (2 * q) <= (2 * p' + q') / (2 * q').
Proof.
  intros Hq Hq' Hp Hle.
  apply Z.div_le_lower_bound; [lia|].
  pose proof (Z.mul_div_le (2 * p + q) (2 * q) ltac:(lia)) as Hn.
  set (n := (2 * p + q) / (2 * q)) in *.
  apply (Z.mul_le_mono_pos_l _ _ q Hq). nia.
Qed.

Lemma half_away_mono (p p' q q' : Z) :
  0 < q -> 0 < q' -> p * q' <= p' * q ->
  Z.sgn p * ((2 * Z.abs p + q) / (2 * q))
  <= Z.sgn p' * ((2 * Z.abs p' + q') / (2 * q')).
Proof.
  intros Hq Hq' Hle.
  assert (Hn : 0 <= (2 * Z.abs p + q) / (2 * q))
    by (apply Z.div_pos; lia).
  assert (Hn' : 0 <= (2 * Z.abs p' + q') / (2 * q'))
    by (apply Z.div_pos; lia).
  destruct (Z.sgn_spec p) as [[Hp ->]|[[Hp ->]|[Hp ->]]];
    destruct (Z.sgn_spec p') as [[Hp' ->]|[[Hp' ->]|[Hp' ->]]];
    try lia; try nia.
  - rewrite !Z.mul_1_l, (Z.abs_eq p), (Z.abs_eq p') by lia.
    apply half_up_mono; lia.
  - rewrite (Z.abs_neq p), (Z.abs_neq p') by lia.
    assert (H : (2 * - p' + q') / (2 * q') <= (2 * - p + q) / (2 * q))
      by (apply half_up_mono; lia).
    lia.
Qed.

Lemma ROUND2_mono (x y : Q) : (x <= y)%Q -> (ROUND2 x <= ROUND2 y)%Q.
Proof.
  intros Hle. unfold ROUND2.
  assert (Hc : (Qred (x * 100) <= Qred (y * 100))%Q)
    by (rewrite !Qred_correct; lra).
  destruct (Qred (x * 100)) as [p q], (Qred (y * 100)) as [p' q'].
  cbn [Qnum Qden]. rewrite !Qred_correct.
  unfold Qle in Hc |- *. cbn [Qnum Qden] in Hc |- *.
  apply Z.mul_le_mono_nonneg_r; [lia|].
  apply half_away_mono; lia.
Qed.

Lemma ROUND2_compat (x y : Q) : (x == y)%Q -> ROUND2 x = ROUND2 y.
Proof.
  intros Heq. unfold ROUND2.
  rewrite (Qred_complete (x * 100) (y * 100)) by (rewrite Heq; reflexivity).
  reflexivity.
Qed.

Lemma ROUND2_20 : (20 <= ROUND2 20)%Q.
Proof. vm_compute. discriminate. Qed.

Lemma ROUND2_100 : (ROUND2 100 <= 100)%Q.
Proof. vm_compute. discriminate. Qed.

Lemma type_score_bounds (poi_type : string) :
  (0.08 <= type_score poi_type <= 0.20)%Q.
Proof.
  unfold type_score.
  repeat match goal with
         | |- context [String.eqb ?a ?b] => destruct (String.eqb a b)
         end; lra.
Qed.

Lemma distance_score_bounds (distance_from_route : float) :
  (0.02 <= distance_score distance_from_route <= 0.10)%Q.
Proof.
  unfold distance_score.
  destruct (distance_from_route <=? 500)%float; [lra|].
  destruct (distance_from_route <=? 1000)%float; [lra|].
  destruct (distance_from_route <=? 2000)%float; lra.
Qed.

(** The range of [calculate_poi_score]: for a rating that is NULL or
    within 0 to 5, a uniqueness within 0 to 10 and a review component
    within its weight of 0.20, the score lies between 20 and 100. *)
Theorem database_score_range (pg_ln : float -> float)
    (float8_to_numeric : float -> Q) (google_rating : option Q)
    (review_count : Z) (poi_type : string) (distance_from_route : float)
    (uniqueness_score : Z) :
  (forall r, google_rating = Some r -> 0 <= r <= 5)%Q ->
  0 <= uniqueness_score <= 10 ->
  (0 <= popularity_score pg_ln float8_to_numeric review_count <= 0.20)%Q ->
  (20 <= calculate_poi_score pg_ln float8_to_numeric google_rating
           review_count poi_type distance_from_route uniqueness_score
      <= 100)%Q.
Proof.
  intros Hrating Hu Hpop. unfold calculate_poi_score.
  pose proof (type_score_bounds poi_type) as Ht.
  pose proof (distance_score_bounds distance_from_route) as Hd.
  assert (Hr : (0 <= rating_score google_rating <= 0.25)%Q).
  { unfold rating_score. destruct google_rating as [r|]; [|lra].
    specialize (Hrating r eq_refl). unfold Qdiv.
    change (/ 5)%Q with (1 # 5)%Q. lra. }
  assert (Huq : (0 <= inject_Z uniqueness_score <= 10)%Q).
  { split.
    - change 0%Q with (inject_Z 0). rewrite <- Zle_Qle. lia.
    - change 10%Q with (inject_Z 10). rewrite <- Zle_Qle. lia. }
  unfold Qdiv in Huq |- *. change (/ 10)%Q with (1 # 10)%Q.
  split.
  - apply (Qle_trans _ _ _ ROUND2_20). apply ROUND2_mono. lra.
  - refine (Qle_trans _ _ _ _ ROUND2_100). apply ROUND2_mono. lra.
Qed.

Lemma database_score_range_witness :
  (20 <= calculate_poi_score log_table cast_exact (Some 4.5%Q) 10
           "museum" 750 default_uniqueness_score
      <= 100)%Q.
Proof.
  apply (database_score_range log_table cast_exact (Some 4.5%Q) 10
           "museum" 750 default_uniqueness_score).
  - intros r H. injection H as <-. lra.
  - unfold default_uniqueness_score. lia.
  - split; vm_compute; discriminate.
Defined.

(** [calculate_poi_score] does not decrease when the rating or the
    uniqueness grows, the other arguments being the same; and a NULL
    rating counts as a rating of 0. *)
Theorem database_score_monotone (pg_ln : float -> float)
    (float8_to_numeric : float -> Q) (r r' : Q) (review_count : Z)
    (poi_type : string) (distance_from_route : float) (u u' : Z) :
  (r <= r')%Q -> u <= u' ->
  (calculate_poi_score pg_ln float8_to_numeric (Some r) review_count
     poi_type distance_from_route u
   <= calculate_poi_score pg_ln float8_to_numeric (Some r') review_count
        poi_type distance_from_route u')%Q
  /\ calculate_poi_score pg_ln float8_to_numeric None review_count
       poi_type distance_from_route u
     = calculate_poi_score pg_ln float8_to_numeric (Some 0%Q) review_count
         poi_type distance_from_route u.
Proof.
  intros Hr Hu. split.
  - unfold calculate_poi_score. apply ROUND2_mono.
    assert (Huq : (inject_Z u <= inject_Z u')%Q)
      by (rewrite <- Zle_Qle; exact Hu).
    unfold rating_score, Qdiv.
    change (/ 5)%Q with (1 # 5)%Q. change (/ 10)%Q with (1 # 10)%Q. lra.
  - unfold calculate_poi_score. apply ROUND2_compat.
    unfold rating_score, Qdiv. change (/ 5)%Q with (1 # 5)%Q. lra.
Qed.

Lemma database_score_monotone_witness :
  (calculate_poi_score log_table cast_exact (Some 3.5%Q) 10 "museum" 750 5
   <= calculate_poi_score log_table cast_exact (Some 4.5%Q) 10 "museum"
        750 8)%Q
  /\ calculate_poi_score log_table cast_exact None 10 "museum" 750 5
     = calculate_poi_score log_table cast_exact (Some 0%Q) 10 "museum"
         750 5.
Proof.
  apply (database_score_monotone log_table cast_exact 3.5%Q 4.5%Q 10
           "museum" 750 5 8); [lra | lia].
Defined.

End DatabaseScoreProofs.

(** ** The routers *)

Module RoutingProofs.
Import Routing.

Local Open Scope string_scope.

Lemma split_pieces (pathname : string) :
  split pathname <> []
  /\ Forall (fun piece => containsSlash piece = false) (split pathname)
  /\ String.concat "/" (split pathname) = pathname.
Proof.
  induction pathname as [|c rest (Hne & Hall & Hjoin)]; cbn [split].
  - split; [discriminate|]. split; [repeat constructor | reflexivity].
  - destruct (Ascii.eqb c "/") eqn:Hc.
    + apply Ascii.eqb_eq in Hc. subst c.
      split; [discriminate|]. split; [constructor; [reflexivity | exact Hall]|].
      cbn [String.concat]. destruct (split rest) as [|piece pieces];
        [congruence|].
      rewrite Hjoin. reflexivity.
    + destruct (split rest) as [|piece pieces]; [congruence|].
      split; [discriminate|]. split.
      * inversion Hall as [|? ? Hpiece Hpieces]; subst.
        constructor; [|exact Hpieces].
        cbn [containsSlash]. rewrite Hc, Hpiece. reflexivity.
      * rewrite <- Hjoin. cbn [String.concat].
        destruct pieces; reflexivity.
Qed.

Lemma segments_spec (pathname seg : string) :
  In seg (pathSegments pathname) ->
  seg <> "" /\ containsSlash seg = false.
Proof.
  unfold pathSegments. intros Hin. apply filter_In in Hin.
  destruct Hin as [Hin Hbool]. split.
  - unfold Boolean in Hbool. apply negb_true_iff, String.eqb_neq in Hbool.
    exact Hbool.
  - destruct (split_pieces pathname) as (_ & Hall & _).
    rewrite Forall_forall in Hall. apply (Hall _ Hin).
Qed.

Lemma last_In {A : Type} (l : list A) (d : A) : l <> [] -> In (last l d) l.
Proof.
  induction l as [|x l IH]; [congruence|]. intros _.
  destruct l as [|y l]; [left; reflexivity|].
  right. apply IH. discriminate.
Qed.

Lemma existsb_eqb (x : string) (l : list string) :
  existsb (String.eqb x) l = true <-> In x l.
Proof.
  rewrite existsb_exists. split.
  - intros (y & Hy & Heq). apply String.eqb_eq in Heq. subst y. exact Hy.
  - intros Hin. exists x. split; [exact Hin | apply String.eqb_refl].
Qed.

(** The router of [route-status].  Splitting the path at the slashes
    loses nothing: joined with slashes the pieces give the path again.
    A request is a status query exactly when it is a GET with at least
    two path segments, and the route identifier is then the last
    segment: it is not empty and holds no slash, even if the path ends
    with slashes.  Only a POST reaches the validation of a location. *)
Theorem status_router_dispatch (method pathname : string) :
  String.concat "/" (split pathname) = pathname
  /\ match statusRouter method pathname with
     | GetRouteStatus routeId =>
         method = "GET"
         /\ (2 <= List.length (pathSegments pathname))%nat
         /\ routeId = last (pathSegments pathname) ""
         /\ In routeId (pathSegments pathname)
         /\ routeId <> ""
         /\ containsSlash routeId = false
     | ValidateLocationOnRoute =>
         method = "POST" /\ includes pathname "validate-location" = true
     | InvalidEndpoint =>
         (method = "GET" -> (List.length (pathSegments pathname) < 2)%nat)
         /\ (method = "POST" ->
             includes pathname "validate-location" = false)
     end.
Proof.
  split; [apply split_pieces|]. unfold statusRouter.
  destruct (String.eqb method "GET") eqn:Hget; cbn [andb].
  - apply String.eqb_eq in Hget. subst method.
    destruct (2 <=? List.length (pathSegments pathname))%nat eqn:Hlen.
    + apply Nat.leb_le in Hlen.
      assert (Hin : In (last (pathSegments pathname) "")
                      (pathSegments pathname)).
      { apply last_In. intros Hnil. rewrite Hnil in Hlen. cbn in Hlen. lia. }
      destruct (segments_spec _ _ Hin) as [Hne Hslash].
      repeat split; assumption.
    + apply Nat.leb_gt in Hlen.
      change (String.eqb "GET" "POST") with false. cbn [andb].
      split; [intros _; exact Hlen | discriminate].
  - apply String.eqb_neq in Hget.
    destruct (String.eqb method "POST") eqn:Hpost; cbn [andb].
    + apply String.eqb_eq in Hpost. subst method.
      destruct (includes pathname "validate-location") eqn:Hinc.
      * split; reflexivity.
      * split; [discriminate | reflexivity].
    + apply String.eqb_neq in Hpost. split; congruence.
Qed.

(** The router of the API.  A POST whose path has the segment
    [generate] starts a generation; a GET whose path has the segment
    [status] is forwarded to the status endpoint with the last segment
    of the path as the route identifier, never empty and without a
    slash, and that is [status] itself when no identifier follows;
    a GET with the segment [health] and without [status] is the health
    check; everything else is not found. *)
Theorem api_router_dispatch (method pathname : string) :
  match apiRouter method pathname with
  | HandleRouteGeneration =>
      method = "POST" /\ In "generate" (pathSegments pathname)
  | ForwardToStatusEndpoint routeId =>
      method = "GET"
      /\ In "status" (pathSegments pathname)
      /\ routeId = last (pathSegments pathname) ""
      /\ In routeId (pathSegments pathname)
      /\ routeId <> ""
      /\ containsSlash routeId = false
  | HandleHealthCheck =>
      method = "GET"
      /\ In "health" (pathSegments pathname)
      /\ ~ In "status" (pathSegments pathname)
  | EndpointNotFound =>
      (method = "POST" -> ~ In "generate" (pathSegments pathname))
      /\ (method = "GET" ->
          ~ In "status" (pathSegments pathname)
          /\ ~ In "health" (pathSegments pathname))
  end.
Proof.
  unfold apiRouter.
  destruct (String.eqb method "POST") eqn:Hpost; cbn [andb].
  - apply String.eqb_eq in Hpost. subst method.
    destruct (existsb (String.eqb "generate") (pathSegments pathname))
      eqn:Hgen.
    + split; [reflexivity | apply existsb_eqb, Hgen].
    + change (String.eqb "POST" "GET") with false. cbn [andb].
      split; [|discriminate]. intros _ Hin.
      apply existsb_eqb in Hin. congruence.
  - apply String.eqb_neq in Hpost.
    destruct (String.eqb method "GET") eqn:Hget; cbn [andb].
    + apply String.eqb_eq in Hget. subst method.
      destruct (existsb (String.eqb "status") (pathSegments pathname))
        eqn:Hstatus.
      * apply existsb_eqb in Hstatus.
        assert (Hin : In (last (pathSegments pathname) "")
                        (pathSegments pathname)).
        { apply last_In. intros Hnil. rewrite Hnil in Hstatus.
          destruct Hstatus. }
        destruct (segments_spec _ _ Hin) as [Hne Hslash].
        repeat split; assumption.
      * assert (Hno : ~ In "status" (pathSegments pathname)).
        { intros Hin. apply existsb_eqb in Hin. congruence. }
        destruct (existsb (String.eqb "health") (pathSegments pathname))
          eqn:Hhealth.
        -- repeat split; [apply existsb_eqb, Hhealth | exact Hno].
        -- split; [discriminate|]. intros _. split; [exact Hno|].
           intros Hin. apply existsb_eqb in Hin. congruence.
    + apply String.eqb_neq in Hget. split; congruence.
Qed.

End RoutingProofs.
